(** * nestjs-secret-manager: the secret resolution pipeline

    A shallow embedding of the in-memory backend, the GCP backend's failure
    mapping, [SecretCache], [SecretRegistry] and [SecretManagerService],
    followed by the properties of the specification proved about them.

    Conventions.
    - A thrown exception is the right injection of a sum: [Result A] is
      [A + JsError]; a method that mutates [this] returns the new object.
    - An optional argument ([version?: string]) is an [option string];
      [x ?? d] is [default d x].
    - [Date.now()] is an explicit argument of the methods that read the clock.
    - A JavaScript [Map] whose iteration order is never observed ([SecretCache],
      the in-memory store) is a [gmap]; a [Map] whose order is observed (the
      registry through [getAll], the backend table through the names listed in
      an error message) is an insertion-ordered association list.
    - Logging and tracing spans do not influence results and are left out. *)

From Stdlib Require Import ZArith Lia DecimalString DecimalNat.
From stdpp Require Import gmap strings list fin_maps.

Local Open Scope string_scope.

(** ** Errors

    [SecretNotFoundError] and [SecretAccessDeniedError] are the two error
    classes of the package; [Error] is a plain [new Error(msg)]; [GrpcError]
    is a transport error the GCP backend throws again unchanged. *)

Inductive JsError : Type :=
| SecretNotFoundError (secretName backend : string) (version : option string)
| SecretAccessDeniedError (secretName backend : string) (reason : option string)
| GrpcError (code : option Z) (grpcMessage : option string)
| Error (msg : string).

Definition Result (A : Type) : Type := (A + JsError)%type.

(** [x ? `…${x}` : ''] : [undefined] and the empty string are both falsy. *)
Definition truthy_suffix (pre : string) (x : option string) (post : string) : string :=
  match x with
  | None => ""
  | Some "" => ""
  | Some v => pre +:+ v +:+ post
  end.

Definition message (e : JsError) : string :=
  match e with
  | SecretNotFoundError secretName backend version =>
      "Secret '" +:+ secretName +:+ "' not found in backend '" +:+ backend +:+ "'"
        +:+ truthy_suffix " (version: " version ")"
  | SecretAccessDeniedError secretName backend reason =>
      "Access denied to secret '" +:+ secretName +:+ "' in backend '" +:+ backend +:+ "'"
        +:+ truthy_suffix ": " reason ""
  | GrpcError _ m => default "undefined" m
  | Error m => m
  end.

(** ** The backend interface *)

Module SecretBackend.
Class SecretBackend (B : Type) : Type := {
  name : B → string;
  get : B → string → option string → Result string;
  getLatest : B → string → Result string;
}.
Arguments name : simpl never.
Arguments get : simpl never.
Arguments getLatest : simpl never.
End SecretBackend.

(** ** InMemorySecretBackend *)

Module InMemory.

Record InMemorySecretBackend : Type := mk { secrets : gmap string (gmap string string) }.

Definition name (_ : InMemorySecretBackend) : string := "memory".

Definition set (b : InMemorySecretBackend) (name value : string) (version : option string)
  : InMemorySecretBackend :=
  let version := default "latest" version in
  let secrets1 :=
    match secrets b !! name with
    | None => <[name := ∅]> (secrets b)
    | Some _ => secrets b
    end in
  mk (<[name := <[version := value]> (default ∅ (secrets1 !! name))]> secrets1).

(** [Object.entries(initialSecrets)] is a list of pairs. *)
Definition new (initialSecrets : option (list (string * string))) : InMemorySecretBackend :=
  match initialSecrets with
  | None => mk ∅
  | Some entries => foldl (λ b '(name, value), set b name value None) (mk ∅) entries
  end.

Definition get (b : InMemorySecretBackend) (name : string) (version : option string)
  : Result string :=
  match secrets b !! name with
  | None => inr (SecretNotFoundError name (InMemory.name b) version)
  | Some secretVersions =>
      let versionId := default "latest" version in
      match secretVersions !! versionId with
      | None => inr (SecretNotFoundError name (InMemory.name b) version)
      | Some value => inl value
      end
  end.

Definition getLatest (b : InMemorySecretBackend) (name : string) : Result string :=
  get b name (Some "latest").

Definition has (b : InMemorySecretBackend) (name : string) (version : option string) : bool :=
  let version := default "latest" version in
  match secrets b !! name with
  | None => false
  | Some secretVersions => bool_decide (is_Some (secretVersions !! version))
  end.

(** Returns the flag and the backend after the call. *)
Definition delete (b : InMemorySecretBackend) (name : string) (version : option string)
  : bool * InMemorySecretBackend :=
  match version with
  | None =>
      (bool_decide (is_Some (secrets b !! name)), mk (base.delete name (secrets b)))
  | Some version =>
      match secrets b !! name with
      | None => (false, b)
      | Some secretVersions =>
          let deleted := bool_decide (is_Some (secretVersions !! version)) in
          let secretVersions' := base.delete version secretVersions in
          if bool_decide (size secretVersions' = 0%nat)
          then (deleted, mk (base.delete name (secrets b)))
          else (deleted, mk (<[name := secretVersions']> (secrets b)))
      end
  end.

Definition clear (_ : InMemorySecretBackend) : InMemorySecretBackend := mk ∅.

Definition size (b : InMemorySecretBackend) : nat := base.size (secrets b).

(** The operations a client can apply to a backend object. *)
Inductive Op : Type :=
| OpSet (name value : string) (version : option string)
| OpDelete (name : string) (version : option string)
| OpClear.

Definition apply (b : InMemorySecretBackend) (op : Op) : InMemorySecretBackend :=
  match op with
  | OpSet n v ver => set b n v ver
  | OpDelete n ver => snd (delete b n ver)
  | OpClear => clear b
  end.

Definition run (b : InMemorySecretBackend) (ops : list Op) : InMemorySecretBackend :=
  foldl apply b ops.

(** No name is bound to an empty version map. *)
Definition no_dangling (b : InMemorySecretBackend) : Prop :=
  ∀ n vs, secrets b !! n = Some vs → vs ≠ ∅.

End InMemory.

#[export] Instance InMemory_SecretBackend : SecretBackend.SecretBackend InMemory.InMemorySecretBackend := {
  SecretBackend.name := InMemory.name;
  SecretBackend.get := InMemory.get;
  SecretBackend.getLatest := InMemory.getLatest;
}.

(** ** GcpSecretManagerBackend

    The gRPC client is an external collaborator: [client] gives, for a secret
    path, what [accessSecretVersion] does.  A text is held as the bytes of
    its UTF-8 encoding; a byte payload is any sequence of bytes. *)

Module Gcp.

Inductive Payload : Type :=
| PayloadString (s : string)
| PayloadBytes (bytes : string).

Inductive ClientOutcome : Type :=
| Responded (data : option Payload)
| Rejected (code : option Z) (grpcMessage : option string).

Record GcpSecretManagerBackend : Type := mk {
  projectId : string;
  client : string → ClientOutcome;
}.

Definition name (_ : GcpSecretManagerBackend) : string := "gcp".

(** [lo <= b <= hi] on a byte. *)
Definition between (lo hi : N) (b : Ascii.ascii) : bool :=
  ((lo <=? Ascii.N_of_ascii b) && (Ascii.N_of_ascii b <=? hi))%N.

(** U+FFFD in UTF-8. *)
Definition replacement : string :=
  String (Ascii.ascii_of_N 239) (String (Ascii.ascii_of_N 191) (String (Ascii.ascii_of_N 189) "")).

(** [Buffer.from(payload).toString('utf-8')]: well-formed sequences are kept
    (one to four bytes, no overlong forms, no surrogates, nothing above
    U+10FFFF); every ill-formed byte, and every well-formed start of a
    sequence that is cut short, becomes one U+FFFD, and decoding resumes at
    the byte that did not fit. *)
Fixpoint toStringUtf8 (bytes : string) : string :=
  match bytes with
  | EmptyString => EmptyString
  | String b rest =>
      if between 0 127 b then String b (toStringUtf8 rest)
      else if between 194 223 b then
        match rest with
        | String c1 rest1 =>
            if between 128 191 c1 then String b (String c1 (toStringUtf8 rest1))
            else replacement +:+ toStringUtf8 rest
        | EmptyString => replacement
        end
      else if between 224 239 b then
        let lo := if between 224 224 b then 160%N else 128%N in
        let hi := if between 237 237 b then 159%N else 191%N in
        match rest with
        | String c1 rest1 =>
            if between lo hi c1 then
              match rest1 with
              | String c2 rest2 =>
                  if between 128 191 c2
                  then String b (String c1 (String c2 (toStringUtf8 rest2)))
                  else replacement +:+ toStringUtf8 rest1
              | EmptyString => replacement
              end
            else replacement +:+ toStringUtf8 rest
        | EmptyString => replacement
        end
      else if between 240 244 b then
        let lo := if between 240 240 b then 144%N else 128%N in
        let hi := if between 244 244 b then 143%N else 191%N in
        match rest with
        | String c1 rest1 =>
            if between lo hi c1 then
              match rest1 with
              | String c2 rest2 =>
                  if between 128 191 c2 then
                    match rest2 with
                    | String c3 rest3 =>
                        if between 128 191 c3
                        then String b (String c1 (String c2 (String c3 (toStringUtf8 rest3))))
                        else replacement +:+ toStringUtf8 rest2
                    | EmptyString => replacement
                    end
                  else replacement +:+ toStringUtf8 rest1
              | EmptyString => replacement
              end
            else replacement +:+ toStringUtf8 rest
        | EmptyString => replacement
        end
      else replacement +:+ toStringUtf8 rest
  end.

Definition secretPath (projectId name versionId : string) : string :=
  "projects/" +:+ projectId +:+ "/secrets/" +:+ name +:+ "/versions/" +:+ versionId.

Definition get (b : GcpSecretManagerBackend) (name : string) (version : option string)
  : Result string :=
  let versionId := default "latest" version in
  match client b (secretPath (projectId b) name versionId) with
  | Rejected code m =>
      if bool_decide (code = Some 5%Z)
      then inr (SecretNotFoundError name (Gcp.name b) version)
      else if bool_decide (code = Some 7%Z)
      then inr (SecretAccessDeniedError name (Gcp.name b) m)
      else inr (GrpcError code m)
  | Responded None => inr (SecretNotFoundError name (Gcp.name b) version)
  | Responded (Some (PayloadString "")) =>
      inr (SecretNotFoundError name (Gcp.name b) version)
  | Responded (Some (PayloadString s)) => inl s
  | Responded (Some (PayloadBytes bytes)) => inl (toStringUtf8 bytes)
  end.

Definition getLatest (b : GcpSecretManagerBackend) (name : string) : Result string :=
  get b name (Some "latest").

End Gcp.

#[export] Instance Gcp_SecretBackend : SecretBackend.SecretBackend Gcp.GcpSecretManagerBackend := {
  SecretBackend.name := Gcp.name;
  SecretBackend.get := Gcp.get;
  SecretBackend.getLatest := Gcp.getLatest;
}.

(** ** SecretCache *)

Module Cache.

Record CacheEntry : Type := mkEntry { value : string; cachedAt : Z }.

Record SecretCache : Type := mk { ttlMs : option Z; cache : gmap string CacheEntry }.

Definition new (ttlMs : option Z) : SecretCache := mk ttlMs ∅.

Definition getCacheKey (backend name : string) (version : option string) : string :=
  backend +:+ ":" +:+ name +:+ ":" +:+ default "latest" version.

(** [this.ttlMs !== undefined && Date.now() - entry.cachedAt > this.ttlMs] *)
Definition expired (ttlMs : option Z) (now : Z) (entry : CacheEntry) : bool :=
  match ttlMs with
  | None => false
  | Some ttl => bool_decide (now - cachedAt entry > ttl)%Z
  end.

(** The value read and the cache after the read (an expired entry is
    removed by the read that finds it). *)
Definition get (c : SecretCache) (backend name : string) (version : option string) (now : Z)
  : option string * SecretCache :=
  let key := getCacheKey backend name version in
  match cache c !! key with
  | None => (None, c)
  | Some entry =>
      if expired (ttlMs c) now entry
      then (None, mk (ttlMs c) (delete key (cache c)))
      else (Some (value entry), c)
  end.

Definition set (c : SecretCache) (backend name value : string) (version : option string)
    (now : Z) : SecretCache :=
  let key := getCacheKey backend name version in
  mk (ttlMs c) (<[key := mkEntry value now]> (cache c)).

Definition has (c : SecretCache) (backend name : string) (version : option string) (now : Z)
  : bool * SecretCache :=
  let '(r, c') := get c backend name version now in
  (bool_decide (r ≠ None), c').

Definition delete (c : SecretCache) (backend name : string) (version : option string)
  : bool * SecretCache :=
  let key := getCacheKey backend name version in
  (bool_decide (is_Some (cache c !! key)), mk (ttlMs c) (base.delete key (cache c))).

Definition clear (c : SecretCache) : SecretCache := mk (ttlMs c) ∅.

Definition size (c : SecretCache) : nat := base.size (cache c).

End Cache.

(** ** A JavaScript [Map] with string keys, in insertion order *)

Module JsMap.
Section JsMap.
Context {V : Type}.

Definition t : Type := list (string * V).

Fixpoint get (m : t) (k : string) : option V :=
  match m with
  | [] => None
  | (k', v) :: m' => if decide (k = k') then Some v else get m' k
  end.

(** An existing key keeps its place; a new key goes last. *)
Fixpoint set (m : t) (k : string) (v : V) : t :=
  match m with
  | [] => [(k, v)]
  | (k', v') :: m' => if decide (k = k') then (k, v) :: m' else (k', v') :: set m' k v
  end.

Definition keys (m : t) : list string := fst <$> m.
Definition values (m : t) : list V := snd <$> m.
Definition size (m : t) : nat := length m.
End JsMap.
Arguments t : clear implicits.
End JsMap.

(** ** SecretRegistry (constants.ts) *)

Module Registry.

Record InjectSecretOptions : Type := mkOptions {
  opt_version : option string;
  opt_backend : option string;
}.

Record SecretRequirement : Type := mkRequirement {
  name : string;
  version : option string;
  backend : option string;
  token : string;
}.

Definition SECRET_TOKEN_PREFIX : string := "SECRET".

(** [options?.backend ?? 'default'], [options?.version ?? 'latest'] *)
Definition getSecretToken (name : string) (options : option InjectSecretOptions) : string :=
  let backend := default "default" (options ≫= opt_backend) in
  let version := default "latest" (options ≫= opt_version) in
  SECRET_TOKEN_PREFIX +:+ "_" +:+ backend +:+ "_" +:+ name +:+ "_" +:+ version.

Record SecretRegistry : Type := mk { secrets : JsMap.t SecretRequirement }.

Definition empty : SecretRegistry := mk [].

Definition register (r : SecretRegistry) (name : string) (options : option InjectSecretOptions)
  : SecretRequirement * SecretRegistry :=
  let token := getSecretToken name options in
  let requirement :=
    mkRequirement name (options ≫= opt_version) (options ≫= opt_backend) token in
  (requirement, mk (JsMap.set (secrets r) token requirement)).

Definition getAll (r : SecretRegistry) : list SecretRequirement := JsMap.values (secrets r).

Definition clear (_ : SecretRegistry) : SecretRegistry := mk [].

Definition size (r : SecretRegistry) : nat := JsMap.size (secrets r).

(** The tuple the token is derived from. *)
Definition tuple (name : string) (options : option InjectSecretOptions)
  : string * string * string :=
  (default "default" (options ≫= opt_backend), name,
   default "latest" (options ≫= opt_version)).

End Registry.

(** ** Backends held by the service

    The table holds objects of the two backend classes of the package and
    objects of client classes that implement the interface; of the latter
    only the answers they give in their present state are represented. *)

Record CustomBackend : Type := mkCustom {
  custom_name : string;
  custom_get : string → option string → Result string;
  custom_getLatest : string → Result string;
}.

#[export] Instance Custom_SecretBackend : SecretBackend.SecretBackend CustomBackend := {
  SecretBackend.name := custom_name;
  SecretBackend.get := custom_get;
  SecretBackend.getLatest := custom_getLatest;
}.

Inductive Backend : Type :=
| MemoryBackend (b : InMemory.InMemorySecretBackend)
| GcpBackend (b : Gcp.GcpSecretManagerBackend)
| OtherBackend (b : CustomBackend).

#[export] Instance Backend_SecretBackend : SecretBackend.SecretBackend Backend := {
  SecretBackend.name b :=
    match b with
    | MemoryBackend b => SecretBackend.name b
    | GcpBackend b => SecretBackend.name b
    | OtherBackend b => SecretBackend.name b
    end;
  SecretBackend.get b :=
    match b with
    | MemoryBackend b => SecretBackend.get b
    | GcpBackend b => SecretBackend.get b
    | OtherBackend b => SecretBackend.get b
    end;
  SecretBackend.getLatest b :=
    match b with
    | MemoryBackend b => SecretBackend.getLatest b
    | GcpBackend b => SecretBackend.getLatest b
    | OtherBackend b => SecretBackend.getLatest b
    end;
}.

(** ** SecretManagerService *)

Module Service.

Record SecretManagerModuleOptions : Type := mkOptions {
  defaultBackend : string;
  cacheEnabled : option bool;
  cacheTTL : option Z;
  validateOnStartup : option bool;
  gcpProjectId : option string;
  inMemorySecrets : option (list (string * string));
  debug : option bool;
}.

Record SecretManagerService : Type := mk {
  options : SecretManagerModuleOptions;
  backends : JsMap.t Backend;
  cache : Cache.SecretCache;
}.

(** [options.flag !== false] *)
Definition not_false (flag : option bool) : bool :=
  match flag with Some false => false | _ => true end.

(** [gcpClient] is what the Google client library does for this process. *)
Definition initializeBackends (options : SecretManagerModuleOptions)
    (gcpClient : string → Gcp.ClientOutcome) : JsMap.t Backend :=
  let backends0 :=
    match gcpProjectId options with
    | None | Some "" => []
    | Some projectId => JsMap.set [] "gcp" (GcpBackend (Gcp.mk projectId gcpClient))
    end in
  JsMap.set backends0 "memory" (MemoryBackend (InMemory.new (inMemorySecrets options))).

Definition new (options : SecretManagerModuleOptions)
    (gcpClient : string → Gcp.ClientOutcome) : SecretManagerService :=
  let cacheEnabled := not_false (cacheEnabled options) in
  mk options (initializeBackends options gcpClient)
     (Cache.new (if cacheEnabled then cacheTTL options else None)).

Definition unknownBackendMessage (backendName : string) (available : list string) : string :=
  "Unknown secret backend: '" +:+ backendName +:+ "'. Available backends: "
    +:+ String.concat ", " available.

Definition getBackend (s : SecretManagerService) (name : option string) : Result Backend :=
  let backendName := default (defaultBackend (options s)) name in
  match JsMap.get (backends s) backendName with
  | None => inr (Error (unknownBackendMessage backendName (JsMap.keys (backends s))))
  | Some backend => inl backend
  end.

(** [now] is the clock when the cache is consulted, [now'] the clock when
    the backend has answered and the value is stored. *)
Definition getInternal (s : SecretManagerService) (name version : string) (backend : Backend)
    (now now' : Z) : Result string * SecretManagerService :=
  let enabled := not_false (cacheEnabled (options s)) in
  let '(cached, s1) :=
    if enabled then
      let '(cached, c) := Cache.get (cache s) (SecretBackend.name backend) name (Some version) now in
      (cached, mk (options s) (backends s) c)
    else (None, s) in
  match cached with
  | Some value => (inl value, s1)
  | None =>
      match SecretBackend.get backend name (Some version) with
      | inr e => (inr e, s1)
      | inl value =>
          if enabled
          then (inl value,
                mk (options s1) (backends s1)
                   (Cache.set (cache s1) (SecretBackend.name backend) name value (Some version) now'))
          else (inl value, s1)
      end
  end.

Definition get (s : SecretManagerService) (name : string) (version backendName : option string)
    (now now' : Z) : Result string * SecretManagerService :=
  match getBackend s backendName with
  | inr e => (inr e, s)
  | inl backend =>
      let resolvedVersion := default "latest" version in
      getInternal s name resolvedVersion backend now now'
  end.

Definition getLatest (s : SecretManagerService) (name : string) (backendName : option string)
    (now now' : Z) : Result string * SecretManagerService :=
  get s name (Some "latest") backendName now now'.

Definition getInMemoryBackend (s : SecretManagerService) : option Backend :=
  JsMap.get (backends s) "memory".

Definition clearCache (s : SecretManagerService) : SecretManagerService :=
  mk (options s) (backends s) (Cache.clear (cache s)).

Definition registerBackend (s : SecretManagerService) (backend : Backend)
  : SecretManagerService :=
  mk (options s) (JsMap.set (backends s) (SecretBackend.name backend) backend) (cache s).

(** ** Startup validation *)

Definition nl : string := String (Ascii.ascii_of_nat 10) "".

(** The decimal numeral `${n}`. *)
Definition decimal (n : nat) : string := NilEmpty.string_of_uint (Nat.to_uint n).

Definition aggregateMessage (errors : list JsError) : string :=
  "Failed to validate " +:+ decimal (length errors) +:+ " secret(s):" +:+ nl
    +:+ String.concat nl ((λ e, "  - " +:+ message e) <$> errors).

(** The [for … of] loop with its [try]/[catch]: [errors] is the array the
    failures are pushed on, [i] counts the iterations and [clock i] gives
    the two clock readings of the [get] of iteration [i]. *)
Fixpoint validateLoop (s : SecretManagerService) (secrets : list Registry.SecretRequirement)
    (clock : nat → Z * Z) (i : nat) (errors : list JsError)
  : list JsError * SecretManagerService :=
  match secrets with
  | [] => (errors, s)
  | secret :: rest =>
      let '(r, s') :=
        get s (Registry.name secret) (Registry.version secret) (Registry.backend secret)
            (fst (clock i)) (snd (clock i)) in
      match r with
      | inl _ => validateLoop s' rest clock (S i) errors
      | inr error => validateLoop s' rest clock (S i) (errors ++ [error])
      end
  end.

Definition validateAllSecrets (s : SecretManagerService) (secretRegistry : Registry.SecretRegistry)
    (clock : nat → Z * Z) : Result unit * SecretManagerService :=
  let secrets := Registry.getAll secretRegistry in
  if bool_decide (length secrets = 0%nat) then (inl (), s)
  else
    let '(errors, s') := validateLoop s secrets clock 0 [] in
    if bool_decide (0 < length errors)%nat
    then (inr (Error (aggregateMessage errors)), s')
    else (inl (), s').

Definition onModuleInit (s : SecretManagerService) (secretRegistry : Registry.SecretRegistry)
    (clock : nat → Z * Z) : Result unit * SecretManagerService :=
  if not_false (validateOnStartup (options s))
  then validateAllSecrets s secretRegistry clock
  else (inl (), s).

End Service.

(** ** Statement-side definitions *)

Module Spec.

(** [sub] occurs in [s]. *)
Definition contains (sub s : string) : Prop := ∃ pre post, s = pre +:+ sub +:+ post.

(** The validation pass as the specification words it: attempt
    [get(requirement.name, requirement.version, requirement.backend)] for
    every requirement in turn, each in the state its predecessor left, and
    keep every outcome. *)
Fixpoint attempts (s : Service.SecretManagerService)
    (requirements : list Registry.SecretRequirement) (clock : nat → Z * Z) (i : nat)
  : list (Result string) * Service.SecretManagerService :=
  match requirements with
  | [] => ([], s)
  | requirement :: rest =>
      let '(outcome, s1) :=
        Service.get s (Registry.name requirement) (Registry.version requirement)
                    (Registry.backend requirement) (fst (clock i)) (snd (clock i)) in
      let '(outcomes, s2) := attempts s1 rest clock (S i) in
      (outcome :: outcomes, s2)
  end.

Definition failures (outcomes : list (Result string)) : list JsError :=
  omap (λ outcome, match outcome with inl _ => None | inr e => Some e end) outcomes.

(** The entry has not outlived the TTL at clock [now]. *)
Definition fresh (ttlMs : option Z) (cachedAt now : Z) : Prop :=
  ∀ ttl, ttlMs = Some ttl → (now - cachedAt ≤ ttl)%Z.

(** A call through the reference that [getInMemoryBackend] returns: the
    table holds the same object, so the call changes the table's entry. *)
Definition onInMemoryBackend (s : Service.SecretManagerService)
    (f : InMemory.InMemorySecretBackend → InMemory.InMemorySecretBackend)
  : Service.SecretManagerService :=
  match Service.getInMemoryBackend s with
  | Some (MemoryBackend b) =>
      Service.mk (Service.options s)
                 (JsMap.set (Service.backends s) "memory" (MemoryBackend (f b)))
                 (Service.cache s)
  | _ => s
  end.

End Spec.

(** ** Concrete configurations (those of the package's test suites) *)

Module Scenario.

Definition noGcp (_ : string) : Gcp.ClientOutcome := Gcp.Rejected (Some 5%Z) None.

Definition options (cacheEnabled : option bool) (cacheTTL : option Z)
  : Service.SecretManagerModuleOptions :=
  Service.mkOptions "memory" cacheEnabled cacheTTL (Some false) None
                    (Some [("api-key", "test-api-key-value")]) None.

Definition service (cacheEnabled : option bool) (cacheTTL : option Z)
  : Service.SecretManagerService :=
  Service.new (options cacheEnabled cacheTTL) noGcp.

(** [service.get('api-key')] at clock 0. *)
Definition afterFirstGet (cacheEnabled : option bool) (cacheTTL : option Z)
  : Service.SecretManagerService :=
  snd (Service.get (service cacheEnabled cacheTTL) "api-key" None None 0 0).

(** [service.getInMemoryBackend().set('api-key', 'modified-value')] *)
Definition afterModification (cacheEnabled : option bool) (cacheTTL : option Z)
  : Service.SecretManagerService :=
  Spec.onInMemoryBackend (afterFirstGet cacheEnabled cacheTTL)
                         (λ b, InMemory.set b "api-key" "modified-value" None).

(** [service.getInMemoryBackend().delete('api-key')] *)
Definition afterRemoval (cacheEnabled : option bool) (cacheTTL : option Z)
  : Service.SecretManagerService :=
  Spec.onInMemoryBackend (afterFirstGet cacheEnabled cacheTTL)
                         (λ b, snd (InMemory.delete b "api-key" None)).

End Scenario.

(** ** SecretManagerModule and the InjectSecret decorator

    The host framework's classes, factory functions and injection tokens are
    values of types the model does not look into. *)

Module NestModule.
Section NestModule.
Context {ClassRef Factory InjectToken ModuleRef : Type}.

(** The shapes of provider the module builds. *)
Inductive Provider : Type :=
| OptionsValue (useValue : Service.SecretManagerModuleOptions)
    (* { provide: SECRET_MANAGER_OPTIONS, useValue: options } *)
| OptionsFactory (useFactory : Factory) (inject : list InjectToken)
    (* { provide: SECRET_MANAGER_OPTIONS, useFactory, inject } *)
| OptionsFromFactoryClass (injectToken : ClassRef)
    (* { provide: SECRET_MANAGER_OPTIONS,
         useFactory: factory => factory.createSecretManagerOptions(),
         inject: [injectToken] } *)
| ClassProvider (useClass : ClassRef)
    (* { provide: useClass, useClass } *)
| ServiceProvider
    (* SecretManagerService *)
| SecretProvider (secret : Registry.SecretRequirement).
    (* { provide: secret.token,
         useFactory: service => service.get(secret.name, secret.version, secret.backend),
         inject: [SecretManagerService] } *)

Record DynamicModule : Type := mkModule {
  imports : option (list ModuleRef);
  providers : list Provider;
  exports : list Provider;
}.

Record SecretManagerModuleAsyncOptions : Type := mkAsync {
  async_imports : option (list ModuleRef);
  useExisting : option ClassRef;
  useClass : option ClassRef;
  useFactory : option Factory;
  inject : option (list InjectToken);
}.

(** The [useFactory] of a secret's provider. *)
Definition secretFactory (secret : Registry.SecretRequirement)
    (service : Service.SecretManagerService) (now now' : Z)
  : Result string * Service.SecretManagerService :=
  Service.get service (Registry.name secret) (Registry.version secret)
              (Registry.backend secret) now now'.

Definition createSecretProviders (secretRegistry : Registry.SecretRegistry) : list Provider :=
  SecretProvider <$> Registry.getAll secretRegistry.

Definition forRoot (options : Service.SecretManagerModuleOptions)
    (secretRegistry : Registry.SecretRegistry) : DynamicModule :=
  let secretProviders := createSecretProviders secretRegistry in
  mkModule None (OptionsValue options :: ServiceProvider :: secretProviders)
           (ServiceProvider :: secretProviders).

Definition createAsyncOptionsProvider (options : SecretManagerModuleAsyncOptions)
  : Result Provider :=
  match useFactory options with
  | Some factory => inl (OptionsFactory factory (default [] (inject options)))
  | None =>
      match (match useExisting options with Some c => Some c | None => useClass options end) with
      | None =>
          inr (Error "Invalid SecretManagerModuleAsyncOptions: must provide useExisting or useClass")
      | Some injectToken => inl (OptionsFromFactoryClass injectToken)
      end
  end.

Definition createAsyncProviders (options : SecretManagerModuleAsyncOptions)
  : Result (list Provider) :=
  if bool_decide (is_Some (useExisting options) ∨ is_Some (useFactory options)) then
    match createAsyncOptionsProvider options with
    | inl p => inl [p]
    | inr e => inr e
    end
  else
    match useClass options with
    | Some c =>
        match createAsyncOptionsProvider options with
        | inl p => inl [p; ClassProvider c]
        | inr e => inr e
        end
    | None =>
        inr (Error "Invalid SecretManagerModuleAsyncOptions: must provide useExisting, useClass, or useFactory")
    end.

(** [createSecretProviders] is evaluated before [createAsyncProviders]. *)
Definition forRootAsync (options : SecretManagerModuleAsyncOptions)
    (secretRegistry : Registry.SecretRegistry) : Result DynamicModule :=
  let secretProviders := createSecretProviders secretRegistry in
  match createAsyncProviders options with
  | inr e => inr e
  | inl asyncProviders =>
      inl (mkModule (Some (default [] (async_imports options)))
                    (asyncProviders ++ ServiceProvider :: secretProviders)
                    (ServiceProvider :: secretProviders))
  end.

(** [secrets = {}] when the argument is omitted.  The module and the
    registry after the call. *)
Definition forTesting (secrets : option (list (string * string)))
    (secretRegistry : Registry.SecretRegistry) : DynamicModule * Registry.SecretRegistry :=
  let secretRegistry' := Registry.clear secretRegistry in
  (forRoot (Service.mkOptions "memory" (Some false) None (Some false) None
                              (Some (default [] secrets)) None)
           secretRegistry',
   secretRegistry').

(** [InjectSecret(name, options)]: the token handed to [Inject] and the
    registry after the call. *)
Definition InjectSecret (name : string) (options : option Registry.InjectSecretOptions)
    (secretRegistry : Registry.SecretRegistry) : string * Registry.SecretRegistry :=
  let '(requirement, secretRegistry') := Registry.register secretRegistry name options in
  (Registry.token requirement, secretRegistry').

(** The secret token a provider is registered under, if it is a secret's. *)
Definition providedSecret (p : Provider) : option string :=
  match p with
  | SecretProvider secret => Some (Registry.token secret)
  | _ => None
  end.

End NestModule.
End NestModule.

(** ** Further statement-side definitions *)

Module Text.

(** The character [c] occurs in [s]. *)
Fixpoint occurs (c : Ascii.ascii) (s : string) : bool :=
  match s with
  | EmptyString => false
  | String x s' => if decide (x = c) then true else occurs c s'
  end.

(** Every byte of [s] is below 128. *)
Fixpoint all_ascii (s : string) : bool :=
  match s with
  | EmptyString => true
  | String x s' => Gcp.between 0 127 x && all_ascii s'
  end.

Definition underscore : Ascii.ascii := Ascii.ascii_of_nat 95.
Definition colon : Ascii.ascii := Ascii.ascii_of_nat 58.

End Text.

Module RegistryOps.

(** The calls a client can make on the registry. *)
Inductive Op : Type :=
| OpRegister (name : string) (options : option Registry.InjectSecretOptions)
| OpClear.

Definition apply (r : Registry.SecretRegistry) (op : Op) : Registry.SecretRegistry :=
  match op with
  | OpRegister name options => snd (Registry.register r name options)
  | OpClear => Registry.clear r
  end.

Definition run (r : Registry.SecretRegistry) (ops : list Op) : Registry.SecretRegistry :=
  foldl apply r ops.

(** The options a requirement was registered with, up to defaults. *)
Definition optionsOf (requirement : Registry.SecretRequirement)
  : option Registry.InjectSecretOptions :=
  Some (Registry.mkOptions (Registry.version requirement) (Registry.backend requirement)).

(** Every key is the token of its requirement, that token is the one
    [getSecretToken] derives from the requirement's own fields, and no key
    occurs twice. *)
Definition keyed (r : Registry.SecretRegistry) : Prop :=
  Forall (λ kv, kv.1 = Registry.token kv.2
                ∧ Registry.token kv.2
                  = Registry.getSecretToken (Registry.name kv.2) (optionsOf kv.2))
         (Registry.secrets r)
  ∧ NoDup (JsMap.keys (Registry.secrets r)).

End RegistryOps.

(** ** The cache key of a requirement *)

Module Lookup.

(** The composite key under which the resolver caches a requirement's
    value: that of the backend its [backend] resolves to, its name and its
    version, "latest" when it has none. *)
Definition cacheKeyOf (s : Service.SecretManagerService)
    (requirement : Registry.SecretRequirement) : option string :=
  match Service.getBackend s (Registry.backend requirement) with
  | inl b =>
      Some (Cache.getCacheKey (SecretBackend.name b) (Registry.name requirement)
                              (Some (default "latest" (Registry.version requirement))))
  | inr _ => None
  end.

End Lookup.

(** ** Proof steps *)

(** Take hypotheses apart and close the goal from the equations found. *)
Ltac settle :=
  intros;
  repeat match goal with
         | H : _ ∧ _ |- _ => destruct H
         | H : _ ∨ _ |- _ => destruct H
         | H : ∃ _, _ |- _ => destruct H
         end;
  simplify_eq; eauto 8.

(** * Properties *)

(** ** InMemorySecretBackend *)

Section InMemoryFacts.
Import InMemory.
Implicit Types (b : InMemorySecretBackend) (n v : string) (ver : option string).

(** What [set] leaves in the store, key by key. *)
Lemma set_lookup b n v ver n' :
  secrets (set b n v ver) !! n' =
    if decide (n = n')
    then Some (<[default "latest" ver := v]> (default ∅ (secrets b !! n)))
    else secrets b !! n'.
Proof.
  unfold set; simpl. destruct (secrets b !! n) as [vs|] eqn:E.
  - rewrite lookup_insert. case_decide; [by rewrite E|done].
  - rewrite lookup_insert. case_decide; [by rewrite lookup_insert_eq|].
    by rewrite lookup_insert_ne.
Qed.

Lemma get_lookup b n ver :
  get b n ver =
    match secrets b !! n ≫= (λ vs, vs !! default "latest" ver) with
    | Some value => inl value
    | None => inr (SecretNotFoundError n "memory" ver)
    end.
Proof.
  unfold get. destruct (secrets b !! n) as [vs|]; simpl; [|done].
  by destruct (vs !! default "latest" ver).
Qed.

Lemma set_no_dangling b n v ver : no_dangling b → no_dangling (set b n v ver).
Proof.
  intros Hb n' vs. rewrite set_lookup. case_decide.
  - intros [= <-]. apply insert_non_empty.
  - apply Hb.
Qed.

Lemma delete_no_dangling b n ver : no_dangling b → no_dangling (snd (delete b n ver)).
Proof.
  intros Hb. unfold delete. destruct ver as [version|]; simpl.
  - destruct (secrets b !! n) as [vs|] eqn:E; simpl; [|done].
    case_bool_decide as Hsz; intros n' vs'; simpl.
    + rewrite lookup_delete. case_decide; [done|apply Hb].
    + rewrite lookup_insert. case_decide; [|apply Hb].
      intros [= <-] Hempty. apply Hsz. by rewrite Hempty, map_size_empty.
  - intros n' vs'; simpl. rewrite lookup_delete. case_decide; [done|apply Hb].
Qed.

Lemma clear_no_dangling b : no_dangling (clear b).
Proof. intros n vs. unfold clear; simpl. by rewrite lookup_empty. Qed.

Lemma apply_no_dangling b op : no_dangling b → no_dangling (apply b op).
Proof.
  destruct op; simpl; auto using set_no_dangling, delete_no_dangling, clear_no_dangling.
Qed.

Lemma run_no_dangling ops : ∀ b, no_dangling b → no_dangling (run b ops).
Proof.
  induction ops as [|op ops IH]; intros b Hb; [done|].
  apply IH, apply_no_dangling, Hb.
Qed.

Lemma preload_no_dangling entries :
  ∀ b, no_dangling b →
       no_dangling (foldl (λ b '(name, value), set b name value None) b entries).
Proof.
  induction entries as [|[n v] entries IH]; intros b Hb; simpl; [done|].
  apply IH, set_no_dangling, Hb.
Qed.

Lemma new_no_dangling init : no_dangling (new init).
Proof.
  assert (no_dangling (mk ∅)) as H0 by (intros n vs; simpl; by rewrite lookup_empty).
  destruct init as [entries|]; simpl; [|done]. by apply preload_no_dangling.
Qed.

(** C5: [get] fails with [SecretNotFoundError] exactly when the name is not
    in the store or the requested version ("latest" when the argument is
    omitted) is not among the name's versions; every failure is that error;
    otherwise [get] returns the stored value.  A [set] under a version other
    than "latest" never changes what a lookup of "latest" gives, and a secret
    stored only under "1" is not found through "latest". *)
Theorem get_not_found_iff b n ver :
  let versionId := default "latest" ver in
  (get b n ver = inr (SecretNotFoundError n "memory" ver) ↔
     secrets b !! n = None ∨ ∃ vs, secrets b !! n = Some vs ∧ vs !! versionId = None)
  ∧ (∀ e, get b n ver = inr e ↔
          e = SecretNotFoundError n "memory" ver ∧ ∀ value, get b n ver ≠ inl value)
  ∧ (∀ value, get b n ver = inl value ↔
              ∃ vs, secrets b !! n = Some vs ∧ vs !! versionId = Some value)
  ∧ (∀ n' v version, version ≠ "latest" →
                     get (set b n' v (Some version)) n None = get b n None)
  ∧ (∀ v, get (set (new None) n v (Some "1")) n None
          = inr (SecretNotFoundError n "memory" None)).
Proof.
  intros versionId. rewrite get_lookup. fold versionId.
  split; [|split; [|split; [|split]]].
  - destruct (secrets b !! n) as [vs|]; simpl.
    + destruct (vs !! versionId) eqn:E; split; try done.
      * by intros [|(vs' & [= <-] & Hv)]; [|rewrite E in Hv].
      * intros _. right. by exists vs.
    + split; [by left|done].
  - intros e. destruct (secrets b !! n ≫= _); split.
    + done.
    + intros [_ Hno]. by destruct (Hno s).
    + by intros [= <-].
    + by intros [-> _].
  - intros value. destruct (secrets b !! n) as [vs|]; simpl.
    + destruct (vs !! versionId) eqn:E; split.
      * intros [= <-]. by exists vs.
      * intros (vs' & [= <-] & Hv). rewrite E in Hv. by injection Hv as ->.
      * done.
      * intros (vs' & [= <-] & Hv). by rewrite E in Hv.
    + split; [done|]. by intros (vs & ? & _).
  - intros n' v version Hne. rewrite !get_lookup, set_lookup. case_decide as Hn.
    + subst n'. simpl. rewrite lookup_insert_ne by done.
      destruct (secrets b !! n); simpl; [done|]. by rewrite lookup_empty.
    + done.
  - intros v. rewrite get_lookup, set_lookup. rewrite decide_True by done.
    simpl. by rewrite lookup_insert_ne, lookup_empty.
Qed.

(** C9: whatever the constructor preloads and whatever sequence of [set],
    [delete] and [clear] calls follows, no name of the store is bound to an
    empty version map; and deleting the only version of a name removes the
    name. *)
Theorem store_never_dangles init ops :
  no_dangling (run (new init) ops)
  ∧ ∀ b n version v,
      secrets (snd (delete (mk (<[n := {[version := v]}]> (secrets b))) n (Some version))) !! n
      = None.
Proof.
  split; [apply run_no_dangling, new_no_dangling|].
  intros b n version v. unfold delete; simpl. rewrite lookup_insert_eq.
  rewrite delete_singleton_eq, map_size_empty. simpl. apply lookup_delete_eq.
Qed.

End InMemoryFacts.

(** ** SecretCache *)

Section CacheFacts.
Import Cache.
Implicit Types (c : SecretCache) (backend name value : string) (version : option string).

Lemma getCacheKey_latest backend name :
  getCacheKey backend name (Some "latest") = getCacheKey backend name None.
Proof. reflexivity. Qed.

Lemma getCacheKey_default backend name version :
  getCacheKey backend name (Some (default "latest" version)) = getCacheKey backend name version.
Proof. by destruct version. Qed.

Lemma set_lookup_key c backend name value version now :
  cache (set c backend name value version now) !! getCacheKey backend name version
  = Some (mkEntry value now).
Proof. unfold set; simpl. apply lookup_insert_eq. Qed.

Lemma set_ttlMs c backend name value version now :
  ttlMs (set c backend name value version now) = ttlMs c.
Proof. reflexivity. Qed.

Lemma expired_false_fresh ttl cachedAt now value :
  Spec.fresh ttl cachedAt now → expired ttl now (mkEntry value cachedAt) = false.
Proof.
  intros Hfresh. destruct ttl as [ttl|]; simpl; [|done].
  apply bool_decide_eq_false. specialize (Hfresh ttl eq_refl). lia.
Qed.

(** The read of an entry, by cases on its expiry. *)
Lemma get_entry c backend name version now entry :
  cache c !! getCacheKey backend name version = Some entry →
  get c backend name version now =
    if expired (ttlMs c) now entry
    then (None, mk (ttlMs c) (base.delete (getCacheKey backend name version) (cache c)))
    else (Some (value entry), c).
Proof. intros H. unfold get. by rewrite H. Qed.

Lemma get_absent c backend name version now :
  cache c !! getCacheKey backend name version = None →
  get c backend name version now = (None, c).
Proof. intros H. unfold get. by rewrite H. Qed.

(** A read stores nothing: the map after it is the map before it, or that
    map without the key that was read. *)
Lemma get_shrinks c backend name version now :
  let c' := snd (get c backend name version now) in
  ttlMs c' = ttlMs c
  ∧ (c' = c ∨ (fst (get c backend name version now) = None
               ∧ cache c' = base.delete (getCacheKey backend name version) (cache c))).
Proof.
  unfold get. destruct (cache c !! _) as [entry|]; simpl; [|by auto].
  destruct (expired _ _ _); simpl; auto.
Qed.

(** After a read that found nothing, the key is not in the map. *)
Lemma get_None_absent c backend name version now :
  fst (get c backend name version now) = None →
  cache (snd (get c backend name version now)) !! getCacheKey backend name version = None.
Proof.
  unfold get. destruct (cache c !! _) as [entry|] eqn:E; simpl; [|done].
  destruct (expired _ _ _); simpl; [|done]. intros _. apply lookup_delete_eq.
Qed.

(** C4: an entry stored by [set] at clock [setAt], read at clock [now] from
    a cache whose TTL and whose binding of that key are still those [set]
    left: with a TTL, the value is returned when the elapsed time is below
    the TTL and nothing is returned when it is above; without a TTL the
    value is returned whatever the elapsed time. *)
Theorem get_by_elapsed_time c backend name value version (setAt now : Z) c2 :
  ttlMs c2 = ttlMs c →
  cache c2 !! getCacheKey backend name version
    = cache (set c backend name value version setAt) !! getCacheKey backend name version →
  let elapsed := (now - setAt)%Z in
  match ttlMs c with
  | Some ttl =>
      ((elapsed < ttl)%Z → fst (get c2 backend name version now) = Some value)
      ∧ ((elapsed > ttl)%Z → fst (get c2 backend name version now) = None)
  | None => fst (get c2 backend name version now) = Some value
  end.
Proof.
  intros Httl Hkey elapsed. rewrite set_lookup_key in Hkey.
  rewrite (get_entry _ _ _ _ _ _ Hkey), Httl.
  destruct (ttlMs c) as [ttl|]; simpl; [|done]. subst elapsed. split; intros H.
  - by rewrite bool_decide_eq_false_2 by lia.
  - by rewrite bool_decide_eq_true_2 by lia.
Qed.

Lemma get_by_elapsed_time_witness :
  fst (get (set (new (Some 1000%Z)) "gcp" "api-key" "value" None 0)
           "gcp" "api-key" None 500) = Some "value"
  ∧ fst (get (set (new (Some 1000%Z)) "gcp" "api-key" "value" None 0)
             "gcp" "api-key" None 1001) = None.
Proof.
  pose (c1 := set (new (Some 1000%Z)) "gcp" "api-key" "value" None 0).
  split.
  - exact (proj1 (get_by_elapsed_time (new (Some 1000%Z)) "gcp" "api-key" "value" None
                    0 500 c1 eq_refl eq_refl) eq_refl).
  - exact (proj2 (get_by_elapsed_time (new (Some 1000%Z)) "gcp" "api-key" "value" None
                    0 1001 c1 eq_refl eq_refl) eq_refl).
Defined.

(** C3 as stated fails: in a cache with a TTL of 1000 ms a [get] that
    follows the [set] 1001 ms later returns nothing. *)
Lemma round_trip_lost_after_ttl :
  fst (get (set (new (Some 1000%Z)) "gcp" "api-key" "value" None 0)
           "gcp" "api-key" None 1001) = None.
Proof. vm_compute. reflexivity. Qed.

(** C3, amended: [set] followed by [get] returns the value, the version
    being omitted or "latest" in either call, provided no TTL is configured
    or the [get] comes no later than the TTL after the [set]; the read
    leaves the cache as [set] left it, and [set] leaves the same cache
    whether the version is omitted or "latest". *)
Theorem round_trip_latest c backend name value version version' (setAt now : Z) :
  default "latest" version = "latest" →
  default "latest" version' = "latest" →
  Spec.fresh (ttlMs c) setAt now →
  get (set c backend name value version setAt) backend name version' now
  = (Some value, set c backend name value version setAt)
  ∧ set c backend name value version setAt = set c backend name value None setAt.
Proof.
  intros Hv Hv' Hfresh.
  assert (getCacheKey backend name version = getCacheKey backend name None) as Hk
    by (by rewrite <- getCacheKey_default, Hv).
  assert (getCacheKey backend name version' = getCacheKey backend name None) as Hk'
    by (by rewrite <- getCacheKey_default, Hv').
  split; [|unfold set; by rewrite Hk].
  assert (cache (set c backend name value version setAt) !! getCacheKey backend name version'
          = Some (mkEntry value setAt)) as Hentry
    by (rewrite Hk', <- Hk; apply set_lookup_key).
  rewrite (get_entry _ _ _ _ _ _ Hentry), set_ttlMs.
  by rewrite expired_false_fresh.
Qed.

Lemma round_trip_latest_witness :
  get (set (new (Some 1000%Z)) "gcp" "api-key" "latest-value" None 0)
      "gcp" "api-key" (Some "latest") 1000
  = (Some "latest-value", set (new (Some 1000%Z)) "gcp" "api-key" "latest-value" None 0).
Proof.
  apply (round_trip_latest (new (Some 1000%Z)) "gcp" "api-key" "latest-value"
           None (Some "latest") 0 1000 eq_refl eq_refl).
  intros ttl [= <-]. lia.
Defined.

End CacheFacts.

(** ** Insertion-ordered maps *)

Section JsMapFacts.
Context {V : Type}.
Implicit Types (m : JsMap.t V) (k : string) (v : V).

Lemma JsMap_get_set m k v k' :
  JsMap.get (JsMap.set m k v) k' = if decide (k' = k) then Some v else JsMap.get m k'.
Proof.
  induction m as [|[k0 v0] m IH]; simpl.
  - by repeat case_decide.
  - destruct (decide (k = k0)) as [->|Hne]; simpl.
    + by repeat case_decide.
    + rewrite IH. repeat case_decide; congruence.
Qed.

Lemma JsMap_size_set m k v :
  JsMap.size (JsMap.set m k v)
  = if JsMap.get m k is Some _ then JsMap.size m else S (JsMap.size m).
Proof.
  unfold JsMap.size. induction m as [|[k0 v0] m IH]; simpl; [done|].
  case_decide; simpl; [done|]. rewrite IH. by destruct (JsMap.get m k).
Qed.

Lemma JsMap_set_set m k v v' : JsMap.set (JsMap.set m k v) k v' = JsMap.set m k v'.
Proof.
  induction m as [|[k0 v0] m IH]; simpl.
  - by rewrite decide_True.
  - case_decide; simpl; [by rewrite decide_True|]. rewrite decide_False by done.
    by rewrite IH.
Qed.

Lemma JsMap_keys_get m k : k ∈ JsMap.keys m ↔ is_Some (JsMap.get m k).
Proof.
  unfold JsMap.keys. induction m as [|[k0 v0] m IH]; simpl.
  - split; [by intros ?%elem_of_nil|by intros [? ?]].
  - rewrite elem_of_cons, IH. case_decide; [|tauto].
    split; [by eauto|by left].
Qed.
End JsMapFacts.

(** ** SecretRegistry *)

Section RegistryFacts.
Import Registry.

(** The token is a function of the tuple. *)
Lemma getSecretToken_tuple name options name' options' :
  tuple name options = tuple name' options' →
  getSecretToken name options = getSecretToken name' options'.
Proof. unfold tuple, getSecretToken. by intros [= -> -> ->]. Qed.

(** X25: registering a tuple that is registered already leaves the number
    of entries as it is. *)
Lemma register_again r name options name' options' :
  tuple name options = tuple name' options' →
  size (snd (register (snd (register r name options)) name' options'))
  = size (snd (register r name options)).
Proof.
  intros Ht. unfold register, size; simpl.
  rewrite <- (getSecretToken_tuple _ _ _ _ Ht), JsMap_set_set, !JsMap_size_set.
  done.
Qed.

(** The scenario of the specification: the same requirement declared twice
    leaves one entry. *)
Lemma register_again_witness :
  size (snd (register (snd (register empty "x" None)) "x" None)) = 1%nat.
Proof. exact (register_again empty "x" None "x" None eq_refl). Defined.

(** C6 fails on the code: the token joins its three parts with "_", which
    the parts may contain themselves.  The tuples ("gcp", "db_password",
    "latest") and ("gcp_db", "password", "latest") differ and get the same
    token, so the second registration overwrites the first and the registry
    holds one entry, the second, where the claim promises two. *)
Theorem distinct_tuples_share_a_token :
  let first := Some (mkOptions None (Some "gcp")) in
  let second := Some (mkOptions None (Some "gcp_db")) in
  let registry := snd (register (snd (register empty "db_password" first)) "password" second) in
  tuple "db_password" first ≠ tuple "password" second
  ∧ getSecretToken "db_password" first = "SECRET_gcp_db_password_latest"
  ∧ getSecretToken "password" second = "SECRET_gcp_db_password_latest"
  ∧ size registry = 1%nat
  ∧ getAll registry
    = [mkRequirement "password" None (Some "gcp_db") "SECRET_gcp_db_password_latest"].
Proof. vm_compute. repeat split; congruence. Qed.

End RegistryFacts.

(** ** SecretManagerService *)

Section ServiceFacts.
Import Service.
Implicit Types (s : SecretManagerService) (b : Backend) (name : string)
  (version backendName : option string) (now : Z).

Lemma get_unknown s name version backendName now now' e :
  getBackend s backendName = inr e → get s name version backendName now now' = (inr e, s).
Proof. intros H. unfold get. by rewrite H. Qed.

Lemma get_known s name version backendName now now' b :
  getBackend s backendName = inl b →
  get s name version backendName now now'
  = getInternal s name (default "latest" version) b now now'.
Proof. intros H. unfold get. by rewrite H. Qed.

(** Caching disabled: the backend's answer, and no change of state. *)
Lemma getInternal_disabled s name ver b now now' :
  cacheEnabled (options s) = Some false →
  getInternal s name ver b now now' = (SecretBackend.get b name (Some ver), s).
Proof.
  intros H. unfold getInternal. rewrite H; simpl.
  by destruct (SecretBackend.get b name (Some ver)).
Qed.

(** Caching enabled and no live entry: the backend's answer, stored when it
    is a value. *)
Lemma getInternal_miss s name ver b now now' :
  not_false (cacheEnabled (options s)) = true →
  fst (Cache.get (cache s) (SecretBackend.name b) name (Some ver) now) = None →
  let c1 := snd (Cache.get (cache s) (SecretBackend.name b) name (Some ver) now) in
  getInternal s name ver b now now' =
    match SecretBackend.get b name (Some ver) with
    | inl value =>
        (inl value,
         mk (options s) (backends s)
            (Cache.set c1 (SecretBackend.name b) name value (Some ver) now'))
    | inr e => (inr e, mk (options s) (backends s) c1)
    end.
Proof.
  intros Hen Hmiss c1. unfold getInternal. rewrite Hen. subst c1.
  destruct (Cache.get _ _ _ _ _) as [cached c]; simpl in *. subst cached.
  by destruct (SecretBackend.get b name (Some ver)).
Qed.

(** Caching enabled and a live entry: its value, and no change of state. *)
Lemma getInternal_hit s name ver b now now' value :
  not_false (cacheEnabled (options s)) = true →
  Cache.get (cache s) (SecretBackend.name b) name (Some ver) now = (Some value, cache s) →
  getInternal s name ver b now now' = (inl value, s).
Proof.
  intros Hen Hhit. unfold getInternal. rewrite Hen, Hhit. by destruct s.
Qed.

(** Storing over the cache a read left is storing over the cache itself. *)
Lemma set_after_get (c : Cache.SecretCache) backend name version now value now' :
  Cache.set (snd (Cache.get c backend name version now)) backend name value version now'
  = Cache.set c backend name value version now'.
Proof.
  destruct (get_shrinks c backend name version now) as [Httl [->|[_ Hdel]]]; [done|].
  unfold Cache.set. rewrite Httl, Hdel. by rewrite insert_delete_eq.
Qed.

(** C7: when no backend is registered under the explicit [backendName], or
    under the configured default when it is omitted, [get] fails with the
    unknown-backend error, whatever the secret name and version, without
    touching the state; the error's message lists the keys of the backend
    table, which are exactly the names under which a backend is registered. *)
Theorem get_unknown_backend s name version backendName now now' :
  let resolved := default (defaultBackend (options s)) backendName in
  JsMap.get (backends s) resolved = None →
  get s name version backendName now now'
  = (inr (Error ("Unknown secret backend: '" +:+ resolved +:+ "'. Available backends: "
                   +:+ String.concat ", " (JsMap.keys (backends s)))), s)
  ∧ ∀ k, k ∈ JsMap.keys (backends s) ↔ is_Some (JsMap.get (backends s) k).
Proof.
  intros resolved Hnone. split; [|apply JsMap_keys_get].
  apply get_unknown. unfold getBackend. fold resolved. by rewrite Hnone.
Qed.

Lemma get_unknown_backend_witness :
  fst (get (Scenario.service None None) "api-key" None (Some "unknown") 0 0)
  = inr (Error "Unknown secret backend: 'unknown'. Available backends: memory").
Proof.
  rewrite (proj1 (get_unknown_backend (Scenario.service None None) "api-key" None
                    (Some "unknown") 0 0 eq_refl)).
  reflexivity.
Defined.

(** C8 as stated fails: the backend table takes any object with the
    interface's three members.  A client's backend whose [getLatest] answers
    on its own is accepted by [registerBackend] and resolved under its name,
    and its [getLatest(name)] does not return what its [get(name, "latest")]
    returns. *)
Lemma custom_getLatest_differs :
  let custom :=
    OtherBackend (mkCustom "custom" (λ _ _, inl "from-get") (λ _, inl "from-getLatest")) in
  getBackend (registerBackend (Scenario.service None None) custom) (Some "custom") = inl custom
  ∧ SecretBackend.getLatest custom "api-key" = inl "from-getLatest"
  ∧ SecretBackend.get custom "api-key" (Some "latest") = inl "from-get"
  ∧ SecretBackend.getLatest custom "api-key" ≠ SecretBackend.get custom "api-key" (Some "latest").
Proof. vm_compute. split_and!; congruence. Qed.

(** C8, amended: the resolver's [getLatest(name, backendName)] is its
    [get(name, "latest", backendName)], in result and in effect on the
    state, and so is its [get] with the version omitted; the in-memory and
    the GCP backend's [getLatest(name)] is that backend's
    [get(name, "latest")], also when called through the interface.  A
    client's backend is not bound so; but the resolver never calls a
    backend's [getLatest]: with a client's backend registered, the result of
    the resolver's [getLatest] and the cache it leaves are the same whatever
    that backend's [getLatest] does. *)
Theorem getLatest_is_get_latest :
  (∀ s name backendName now now',
      getLatest s name backendName now now' = get s name (Some "latest") backendName now now'
      ∧ getLatest s name backendName now now' = get s name None backendName now now')
  ∧ (∀ (b : InMemory.InMemorySecretBackend) name,
        InMemory.getLatest b name = InMemory.get b name (Some "latest")
        ∧ SecretBackend.getLatest (MemoryBackend b) name
          = SecretBackend.get (MemoryBackend b) name (Some "latest"))
  ∧ (∀ (b : Gcp.GcpSecretManagerBackend) name,
        Gcp.getLatest b name = Gcp.get b name (Some "latest")
        ∧ SecretBackend.getLatest (GcpBackend b) name
          = SecretBackend.get (GcpBackend b) name (Some "latest"))
  ∧ (∀ s name customName customGet customGetLatest customGetLatest' now now',
        let registered getLatest' :=
          registerBackend s (OtherBackend (mkCustom customName customGet getLatest')) in
        fst (getLatest (registered customGetLatest) name (Some customName) now now')
        = fst (getLatest (registered customGetLatest') name (Some customName) now now')
        ∧ cache (snd (getLatest (registered customGetLatest) name (Some customName) now now'))
          = cache (snd (getLatest (registered customGetLatest') name (Some customName) now now'))).
Proof.
  split_and!; [by intros; split|by intros; split|by intros; split|].
  intros s name customName customGet customGetLatest customGetLatest' now now' registered.
  subst registered. unfold getLatest, get, getBackend, registerBackend. simpl.
  unfold SecretBackend.name at 1 3 5 7. simpl.
  rewrite !JsMap_get_set, !decide_True by done.
  unfold getInternal. simpl.
  do 3 (unfold SecretBackend.name, SecretBackend.get; simpl).
  destruct (not_false (cacheEnabled (options s))); simpl.
  - destruct (Cache.get (cache s) customName name (Some "latest") now) as [[value|] c]; simpl;
      [done|]. by destruct (customGet name (Some "latest")).
  - by destruct (customGet name (Some "latest")).
Qed.

End ServiceFacts.

(** ** The resolver's cache-then-backend lookup *)

Section ResolverCaching.
Import Service.
Implicit Types (s : SecretManagerService) (b : Backend) (name : string)
  (version backendName : option string).

(** C2 as stated fails: with caching enabled and a [cacheTTL] of 1000 ms,
    the first [get] caches the backend's value; the backend's value is then
    changed, and a [get] 1001 ms later returns the changed value, not the
    cached one. *)
Lemma cached_value_refetched_after_ttl :
  fst (get (Scenario.service (Some true) (Some 1000%Z)) "api-key" None None 0 0)
  = inl "test-api-key-value"
  ∧ fst (get (Scenario.afterModification (Some true) (Some 1000%Z)) "api-key" None None
             1001 1001)
    = inl "modified-value".
Proof. vm_compute. split; reflexivity. Qed.

(** C2, amended.  Let [b] be the backend that [backendName] resolves to.
    With caching enabled, a [get] that finds no live entry for its key
    returns the backend's value and stores it with the clock [now'] of the
    store.  In any later state with that cache, whatever the backend
    registered under the name has become, a [get] for the key returns the
    stored value provided no TTL is configured or the clock is at most the
    TTL past [now']; once the TTL is exceeded the backend's current answer
    is returned; and after [clearCache] the backend's current answer is
    returned.  With caching disabled every [get] returns the backend's
    current answer and leaves the state as it is. *)
Theorem get_caches_until_expiry s name version backendName b :
  getBackend s backendName = inl b →
  let ver := default "latest" version in
  (not_false (cacheEnabled (options s)) = true →
   ∀ value now now',
     fst (Cache.get (cache s) (SecretBackend.name b) name (Some ver) now) = None →
     SecretBackend.get b name (Some ver) = inl value →
     let s1 := mk (options s) (backends s)
                  (Cache.set (cache s) (SecretBackend.name b) name value (Some ver) now') in
     get s name version backendName now now' = (inl value, s1)
     ∧ ∀ s2 b2 later later',
         options s2 = options s →
         cache s2 = cache s1 →
         getBackend s2 backendName = inl b2 →
         SecretBackend.name b2 = SecretBackend.name b →
         (Spec.fresh (Cache.ttlMs (cache s)) now' later →
          get s2 name version backendName later later' = (inl value, s2))
         ∧ (∀ ttl, Cache.ttlMs (cache s) = Some ttl → (later - now' > ttl)%Z →
                   fst (get s2 name version backendName later later')
                   = SecretBackend.get b2 name (Some ver))
         ∧ fst (get (clearCache s2) name version backendName later later')
           = SecretBackend.get b2 name (Some ver))
  ∧ (cacheEnabled (options s) = Some false →
     ∀ now now',
       get s name version backendName now now' = (SecretBackend.get b name (Some ver), s)).
Proof.
  intros Hb ver. split.
  - intros Hen value now now' Hmiss Hget s1. split.
    + rewrite (get_known _ _ _ _ _ _ _ Hb). fold ver.
      rewrite (getInternal_miss _ _ _ _ _ _ Hen Hmiss), Hget.
      subst s1. by rewrite set_after_get.
    + intros s2 b2 later later' Hopts Hcache Hb2 Hname.
      assert (not_false (cacheEnabled (options s2)) = true) as Hen2 by (by rewrite Hopts).
      assert (Cache.cache (cache s2) !! Cache.getCacheKey (SecretBackend.name b2) name (Some ver)
              = Some (Cache.mkEntry value now')) as Hentry
        by (rewrite Hcache, Hname; apply set_lookup_key).
      assert (Cache.ttlMs (cache s2) = Cache.ttlMs (cache s)) as Httl by (by rewrite Hcache).
      split; [|split].
      * intros Hfresh. rewrite (get_known _ _ _ _ _ _ _ Hb2). fold ver.
        apply getInternal_hit; [done|].
        rewrite (get_entry _ _ _ _ _ _ Hentry), Httl.
        by rewrite expired_false_fresh.
      * intros ttl Hsome Hlate. rewrite (get_known _ _ _ _ _ _ _ Hb2). fold ver.
        assert (Cache.get (cache s2) (SecretBackend.name b2) name (Some ver) later
                = (None, Cache.mk (Cache.ttlMs (cache s2))
                           (delete (Cache.getCacheKey (SecretBackend.name b2) name (Some ver))
                                   (Cache.cache (cache s2))))) as Hexp.
        { rewrite (get_entry _ _ _ _ _ _ Hentry), Httl, Hsome. simpl.
          by rewrite bool_decide_eq_true_2 by lia. }
        rewrite getInternal_miss; [|done|by rewrite Hexp].
        by destruct (SecretBackend.get b2 name (Some ver)).
      * assert (getBackend (clearCache s2) backendName = inl b2) as Hb2' by done.
        rewrite (get_known _ _ _ _ _ _ _ Hb2'). fold ver.
        rewrite getInternal_miss; [|done|done].
        by destruct (SecretBackend.get b2 name (Some ver)).
  - intros Hoff now now'. rewrite (get_known _ _ _ _ _ _ _ Hb).
    by apply getInternal_disabled.
Qed.

Lemma get_caches_until_expiry_witness :
  fst (get (Scenario.afterModification (Some true) None) "api-key" None None
           1000000 1000000)
  = inl "test-api-key-value"
  ∧ fst (get (clearCache (Scenario.afterModification (Some true) None)) "api-key" None None
             1000000 1000000)
    = inl "modified-value".
Proof.
  pose (b := InMemory.new (Some [("api-key", "test-api-key-value")])).
  pose (b2 := InMemory.set b "api-key" "modified-value" None).
  destruct (get_caches_until_expiry (Scenario.service (Some true) None) "api-key" None None
              (MemoryBackend b) eq_refl) as [Hen _].
  destruct (Hen eq_refl "test-api-key-value" 0%Z 0%Z eq_refl eq_refl) as [_ Hlater].
  destruct (Hlater (Scenario.afterModification (Some true) None) (MemoryBackend b2)
              1000000%Z 1000000%Z eq_refl eq_refl eq_refl eq_refl)
    as (Hhit & _ & Hcleared).
  split.
  - rewrite Hhit; [reflexivity|]. intros ttl Hsome. discriminate Hsome.
  - rewrite Hcleared. reflexivity.
Defined.

End ResolverCaching.

(** ** Failed lookups *)

Section FailedGet.
Import Service.
Implicit Types (s : SecretManagerService) (b : Backend) (name : string)
  (version backendName : option string).

(** A lookup that finds no entry for its key asks the backend. *)
Lemma getInternal_fetches s name ver b (now now' : Z) :
  (not_false (cacheEnabled (options s)) = true →
   Cache.cache (cache s) !! Cache.getCacheKey (SecretBackend.name b) name (Some ver) = None) →
  fst (getInternal s name ver b now now') = SecretBackend.get b name (Some ver).
Proof.
  intros Hkey. destruct (not_false (cacheEnabled (options s))) eqn:Hen.
  - rewrite getInternal_miss; [|done|by rewrite get_absent; auto].
    by destruct (SecretBackend.get b name (Some ver)).
  - rewrite getInternal_disabled; [done|].
    by destruct (cacheEnabled (options s)) as [[]|].
Qed.

(** What a failing lookup leaves behind. *)
Lemma getInternal_failure s name ver b (now now' : Z) e s' :
  getInternal s name ver b now now' = (inr e, s') →
  let key := Cache.getCacheKey (SecretBackend.name b) name (Some ver) in
  options s' = options s
  ∧ backends s' = backends s
  ∧ Cache.ttlMs (cache s') = Cache.ttlMs (cache s)
  ∧ SecretBackend.get b name (Some ver) = inr e
  ∧ (s' = s
     ∨ ∃ entry, Cache.cache (cache s) !! key = Some entry
                ∧ Cache.expired (Cache.ttlMs (cache s)) now entry = true
                ∧ Cache.cache (cache s') = delete key (Cache.cache (cache s)))
  ∧ (Cache.ttlMs (cache s) = None → s' = s)
  ∧ (not_false (cacheEnabled (options s)) = true → Cache.cache (cache s') !! key = None).
Proof.
  intros Hget key. destruct (not_false (cacheEnabled (options s))) eqn:Hen.
  - (* caching enabled: the lookup missed, then the backend threw *)
    unfold getInternal in Hget. rewrite Hen in Hget. unfold Cache.get in Hget. fold key in Hget.
    destruct (Cache.cache (cache s) !! key) as [entry|] eqn:Hentry;
      [destruct (Cache.expired _ now entry) eqn:Hexp|]; simpl in Hget;
      destruct (SecretBackend.get b name (Some ver)) as [value|e1] eqn:Hbk;
      try discriminate Hget; injection Hget as <- <-; simpl.
    + split_and!; try done.
      * right. by exists entry.
      * intros Hnone. rewrite Hnone in Hexp. discriminate Hexp.
      * intros _. apply lookup_delete_eq.
    + destruct s as [o bs c]; simpl in *. split_and!; try done. by left.
  - (* caching disabled: the cache is not consulted *)
    assert (cacheEnabled (options s) = Some false) as Hoff
      by (by destruct (cacheEnabled (options s)) as [[]|]).
    rewrite (getInternal_disabled _ _ _ _ _ _ Hoff) in Hget. injection Hget as Hbk <-.
    split_and!; try done. by left.
Qed.

(** C10 as stated fails: with a [cacheTTL] of 1000 ms, a value cached at
    clock 0 and the secret then deleted from the backend, the [get] at clock
    1001 fails and the cache, which held one entry before the call, holds
    none after it: the lookup removed the expired entry. *)
Lemma failed_get_evicts_expired_entry :
  let s := Scenario.afterRemoval (Some true) (Some 1000%Z) in
  let r := get s "api-key" None None 1001 1001 in
  fst r = inr (SecretNotFoundError "api-key" "memory" (Some "latest"))
  ∧ Cache.size (cache s) = 1%nat
  ∧ Cache.size (cache (snd r)) = 0%nat
  ∧ cache (snd r) ≠ cache s.
Proof. vm_compute. repeat split; congruence. Qed.

(** C10, amended.  A [get] that fails stores nothing.  It leaves the
    options, the backend table and the TTL as they were.  When the backend
    is unknown the state is unchanged.  When the backend's [get] threw, the
    error is the backend's, and the cache is unchanged except that the
    lookup may have removed the entry of the requested key, which then was
    an expired one (so without a TTL the state is unchanged); with caching
    enabled the requested key has no entry afterwards; and in any later
    state with that cache, a [get] for the key returns the current answer of
    the backend registered under the name. *)
Theorem failed_get_stores_nothing s name version backendName (now now' : Z) e s' :
  get s name version backendName now now' = (inr e, s') →
  let ver := default "latest" version in
  options s' = options s
  ∧ backends s' = backends s
  ∧ Cache.ttlMs (cache s') = Cache.ttlMs (cache s)
  ∧ (∀ e0, getBackend s backendName = inr e0 → e = e0 ∧ s' = s)
  ∧ (∀ b, getBackend s backendName = inl b →
       let key := Cache.getCacheKey (SecretBackend.name b) name (Some ver) in
       SecretBackend.get b name (Some ver) = inr e
       ∧ (s' = s
          ∨ ∃ entry, Cache.cache (cache s) !! key = Some entry
                     ∧ Cache.expired (Cache.ttlMs (cache s)) now entry = true
                     ∧ Cache.cache (cache s') = delete key (Cache.cache (cache s)))
       ∧ (Cache.ttlMs (cache s) = None → s' = s)
       ∧ (not_false (cacheEnabled (options s)) = true → Cache.cache (cache s') !! key = None)
       ∧ ∀ s2 b2 later later',
           options s2 = options s →
           cache s2 = cache s' →
           getBackend s2 backendName = inl b2 →
           SecretBackend.name b2 = SecretBackend.name b →
           fst (get s2 name version backendName later later')
           = SecretBackend.get b2 name (Some ver)).
Proof.
  intros Hget ver. destruct (getBackend s backendName) as [b|e0] eqn:Hb.
  - rewrite (get_known _ _ _ _ _ _ _ Hb) in Hget. fold ver in Hget.
    destruct (getInternal_failure _ _ _ _ _ _ _ _ Hget)
      as (Hopts & Hbks & Httl & Hbk & Hcache & Hnottl & Hkey).
    split_and!; try done.
    intros b0 [= <-] key. split_and!; try done.
    intros s2 b2 later later' Hopts2 Hcache2 Hb2 Hname.
    rewrite (get_known _ _ _ _ _ _ _ Hb2). fold ver.
    apply getInternal_fetches. rewrite Hopts2, Hcache2, Hname. apply Hkey.
  - rewrite (get_unknown _ _ _ _ _ _ _ Hb) in Hget. injection Hget as <- <-.
    split_and!; try done. by intros e1 [= <-].
Qed.

Lemma failed_get_stores_nothing_witness :
  let s := Scenario.afterRemoval (Some true) (Some 1000%Z) in
  let s' := snd (get s "api-key" None None 1001 1001) in
  let s2 := Spec.onInMemoryBackend s' (λ m, InMemory.set m "api-key" "restored-value" None) in
  fst (get s2 "api-key" None None 1002 1002) = inl "restored-value".
Proof.
  intros s s' s2.
  pose (m := snd (InMemory.delete (InMemory.new (Some [("api-key", "test-api-key-value")]))
                                  "api-key" None)).
  pose (m2 := InMemory.set m "api-key" "restored-value" None).
  destruct (failed_get_stores_nothing s "api-key" None None 1001 1001
              (SecretNotFoundError "api-key" "memory" (Some "latest")) s' eq_refl)
    as (_ & _ & _ & _ & Hknown).
  destruct (Hknown (MemoryBackend m) eq_refl) as (_ & _ & _ & _ & Hlater).
  rewrite (Hlater s2 (MemoryBackend m2) 1002%Z 1002%Z eq_refl eq_refl eq_refl eq_refl).
  reflexivity.
Defined.

End FailedGet.

(** ** Startup validation *)

Section StartupValidation.
Import Service.
Implicit Types (s : SecretManagerService) (clock : nat → Z * Z).

Lemma append_assoc (a b c : string) : (a +:+ b) +:+ c = a +:+ (b +:+ c).
Proof.
  induction a as [|x a IH]; [done|].
  change (String x ((a +:+ b) +:+ c) = String x (a +:+ (b +:+ c))). by rewrite IH.
Qed.

Lemma append_empty_r (a : string) : a +:+ "" = a.
Proof.
  induction a as [|x a IH]; [done|].
  change (String x (a +:+ "") = String x a). by rewrite IH.
Qed.

Lemma contains_refl a : Spec.contains a a.
Proof.
  exists "", "". by rewrite append_empty_r.
Qed.

Lemma contains_prepend a b c : Spec.contains a c → Spec.contains a (b +:+ c).
Proof.
  intros (pre & post & ->). exists (b +:+ pre), post. by rewrite append_assoc.
Qed.

Lemma contains_append a b c : Spec.contains a b → Spec.contains a (b +:+ c).
Proof.
  intros (pre & post & ->). exists pre, (post +:+ c). by rewrite !append_assoc.
Qed.

Lemma contains_trans a b c : Spec.contains a b → Spec.contains b c → Spec.contains a c.
Proof.
  intros (pre & post & ->) (pre' & post' & ->).
  exists (pre' +:+ pre), (post +:+ post'). by rewrite !append_assoc.
Qed.

(** Each of the joined lines occurs in the joined text. *)
Lemma contains_concat sep (lines : list string) line :
  line ∈ lines → Spec.contains line (String.concat sep lines).
Proof.
  induction lines as [|l lines IH]; [by intros ?%elem_of_nil|].
  intros [->|Hin]%elem_of_cons; simpl.
  - destruct lines; [apply contains_refl|apply contains_append, contains_refl].
  - destruct lines as [|l' lines]; [by apply elem_of_nil in Hin|].
    apply contains_prepend, contains_prepend, IH, Hin.
Qed.

Lemma aggregateMessage_lists errors e :
  e ∈ errors → Spec.contains (message e) (aggregateMessage errors).
Proof.
  intros Hin. unfold aggregateMessage. do 4 apply contains_prepend.
  apply (contains_trans _ ("  - " +:+ message e)).
  - apply contains_prepend, contains_refl.
  - apply contains_concat, list_elem_of_fmap. by exists e.
Qed.

Lemma decimal_reads_back n :
  Nat.of_uint <$> NilEmpty.uint_of_string (decimal n) = Some n.
Proof. unfold decimal. rewrite NilEmpty.usu. simpl. by rewrite DecimalNat.Unsigned.of_to. Qed.

(** The loop collects the failures of the attempts, in their order. *)
Lemma validateLoop_attempts clock secrets :
  ∀ s i errors,
    validateLoop s secrets clock i errors
    = ((errors ++ Spec.failures (fst (Spec.attempts s secrets clock i)))%list,
       snd (Spec.attempts s secrets clock i)).
Proof.
  induction secrets as [|secret rest IH]; intros s i errors; simpl.
  - by rewrite app_nil_r.
  - destruct (get s _ _ _ _ _) as [[value|e] s1]; rewrite IH;
      destruct (Spec.attempts s1 rest clock (S i)) as [outcomes s2]; simpl; [done|].
    by rewrite <- app_assoc.
Qed.

Lemma attempts_length clock requirements :
  ∀ s i, length (fst (Spec.attempts s requirements clock i)) = length requirements.
Proof.
  induction requirements as [|r rest IH]; intros s i; simpl; [done|].
  destruct (get s _ _ _ _ _) as [outcome s1]. specialize (IH s1 (S i)).
  destruct (Spec.attempts s1 rest clock (S i)); simpl in *. by rewrite IH.
Qed.

(** C1: [onModuleInit] does nothing when [validateOnStartup] is [false] and
    validates otherwise.  Validation attempts
    [get(requirement.name, requirement.version, requirement.backend)] for
    every requirement of the registry, one outcome per requirement, a
    failure not stopping the pass; it succeeds when no attempt failed and
    otherwise throws one error whose message gives the number of failures
    in decimal and, line by line, the message of each failure.  With an
    empty registry it succeeds and leaves the state as it is. *)
Theorem startup_validation s (registry : Registry.SecretRegistry) clock :
  let requirements := Registry.getAll registry in
  let outcomes := fst (Spec.attempts s requirements clock 0) in
  let errors := Spec.failures outcomes in
  onModuleInit s registry clock
  = (if decide (validateOnStartup (options s) = Some false) then (inl (), s)
     else (match errors with
           | [] => inl ()
           | _ :: _ =>
               inr (Error ("Failed to validate " +:+ decimal (length errors)
                             +:+ " secret(s):" +:+ nl
                             +:+ String.concat nl ((λ e, "  - " +:+ message e) <$> errors)))
           end,
           snd (Spec.attempts s requirements clock 0)))
  ∧ length outcomes = length requirements
  ∧ (∀ e, e ∈ errors → Spec.contains (message e) (aggregateMessage errors))
  ∧ Nat.of_uint <$> NilEmpty.uint_of_string (decimal (length errors)) = Some (length errors)
  ∧ (requirements = [] → onModuleInit s registry clock = (inl (), s)).
Proof.
  intros requirements outcomes errors.
  assert (validateAllSecrets s registry clock
          = (match errors with
             | [] => inl ()
             | _ :: _ => inr (Error (aggregateMessage errors))
             end, snd (Spec.attempts s requirements clock 0))) as Hvalidate.
  { unfold validateAllSecrets. fold requirements. case_bool_decide as Hlen.
    - subst errors outcomes. by destruct requirements.
    - rewrite validateLoop_attempts. simpl. fold outcomes errors.
      by destruct errors. }
  split_and!.
  - unfold onModuleInit. rewrite Hvalidate.
    by destruct (validateOnStartup (options s)) as [[]|].
  - apply attempts_length.
  - intros e. apply aggregateMessage_lists.
  - apply decimal_reads_back.
  - intros Hempty. unfold onModuleInit. rewrite Hvalidate.
    subst errors outcomes. rewrite Hempty. simpl. by destruct (not_false _).
Qed.

(** The scenario of the specification: one registered requirement whose
    secret is missing. *)
Example startup_fails_on_missing_secret :
  let registry := snd (Registry.register Registry.empty "missing-secret" None) in
  let options := mkOptions "memory" None None (Some true) None (Some []) None in
  fst (onModuleInit (new options Scenario.noGcp) registry (λ _, (0, 0)%Z))
  = inr (Error ("Failed to validate 1 secret(s):" +:+ nl
                  +:+ "  - Secret 'missing-secret' not found in backend 'memory' (version: latest)")).
Proof. vm_compute. reflexivity. Qed.

End StartupValidation.

(** * Further properties of the code *)

(** ** InMemorySecretBackend: the store as a table *)

Section InMemoryTable.
Import InMemory.
Implicit Types (b : InMemorySecretBackend) (n v : string) (ver : option string).

(** X1: [set] then [get]: the value just stored is returned for the same
    name and version (an omitted version being "latest"), and every other
    lookup answers as before the [set], failures included. *)
Theorem set_then_get b n v ver n' ver' :
  get (set b n v ver) n' ver' =
    if decide (n = n' ∧ default "latest" ver = default "latest" ver')
    then inl v
    else get b n' ver'.
Proof.
  rewrite !get_lookup, set_lookup.
  destruct (decide (n = n' ∧ default "latest" ver = default "latest" ver'))
    as [[-> Hv]|Hdiff].
  - rewrite decide_True by done. simpl. by rewrite Hv, lookup_insert_eq.
  - destruct (decide (n = n')) as [->|Hn]; [|done]. simpl.
    rewrite lookup_insert_ne by (intros ?; by apply Hdiff).
    destruct (secrets b !! n'); simpl; [done|]. by rewrite lookup_empty.
Qed.

(** X2: [has] answers [true] exactly when [get] with the same arguments
    returns a value. *)
Theorem has_iff_get b n ver : has b n ver = true ↔ ∃ value, get b n ver = inl value.
Proof.
  rewrite get_lookup. unfold has. destruct (secrets b !! n) as [vs|]; simpl.
  - rewrite bool_decide_eq_true. destruct (vs !! default "latest" ver) as [x|]; split.
    + intros _. by exists x.
    + intros _. by exists x.
    + by intros [? ?].
    + by intros [? ?].
  - split; [done|]. by intros [? ?].
Qed.

(** What [delete] leaves in the store, version by version. *)
Lemma delete_lookup b n ver n' v' :
  secrets (snd (delete b n ver)) !! n' ≫= (λ vs, vs !! v') =
    if decide (n' = n ∧ (ver = None ∨ ver = Some v'))
    then None
    else secrets b !! n' ≫= (λ vs, vs !! v').
Proof.
  unfold delete. destruct ver as [version|]; simpl.
  - destruct (secrets b !! n) as [vs|] eqn:Hn; simpl.
    + destruct (decide (n' = n)) as [->|Hn'].
      * rewrite Hn. simpl. case_bool_decide as Hsz; simpl.
        -- apply map_size_empty_iff in Hsz. rewrite lookup_delete_eq. simpl.
           case_decide as Hv; [done|].
           assert (version ≠ v') as Hne by (intros ->; apply Hv; auto).
           by rewrite <- (lookup_delete_ne vs version v'), Hsz, lookup_empty.
        -- rewrite lookup_insert_eq. simpl. case_decide as Hv.
           ++ destruct Hv as [_ [?|[= ->]]]; [done|]. apply lookup_delete_eq.
           ++ apply lookup_delete_ne. intros ->. apply Hv; auto.
      * rewrite decide_False by (by intros [? _]).
        case_bool_decide; simpl.
        -- by rewrite lookup_delete_ne.
        -- by rewrite lookup_insert_ne.
    + case_decide as Hv; [|done]. destruct Hv as [-> _]. by rewrite Hn.
  - destruct (decide (n' = n)) as [->|Hn'].
    + rewrite decide_True by auto. by rewrite lookup_delete_eq.
    + rewrite decide_False by (by intros [? _]). by rewrite lookup_delete_ne.
Qed.

(** X3: [delete].  Without a version it reports whether the name was in the
    store and removes all its versions; with a version it reports whether
    that version was stored and removes that version alone.  Every lookup
    that does not concern what was removed answers as before. *)
Theorem delete_then_get b n ver :
  (fst (delete b n ver) = true ↔
     match ver with
     | None => is_Some (secrets b !! n)
     | Some version => has b n (Some version) = true
     end)
  ∧ ∀ n' ver',
      get (snd (delete b n ver)) n' ver' =
        if decide (n' = n ∧ (ver = None ∨ ver = Some (default "latest" ver')))
        then inr (SecretNotFoundError n' "memory" ver')
        else get b n' ver'.
Proof.
  split.
  - unfold delete, has. destruct ver as [version|]; simpl.
    + destruct (secrets b !! n) as [vs|]; [|done].
      by case_bool_decide; simpl; rewrite !bool_decide_eq_true.
    + by rewrite bool_decide_eq_true.
  - intros n' ver'. rewrite !get_lookup, delete_lookup. by case_decide.
Qed.

(** The store the constructor's loop builds over [b]: for each name the
    last value the entries give it, under "latest". *)
Lemma preload_lookup entries :
  ∀ b n,
    secrets (foldl (λ b '(name, value), set b name value None) b entries) !! n =
      match (list_to_map (reverse entries) : gmap string string) !! n with
      | Some v => Some (<["latest" := v]> (default ∅ (secrets b !! n)))
      | None => secrets b !! n
      end.
Proof.
  induction entries as [|[n0 v0] entries IH]; intros b n; simpl; [done|].
  rewrite IH, reverse_cons, list_to_map_app, lookup_union, set_lookup. simpl.
  destruct (list_to_map (reverse entries) !! n) as [v|]; simpl.
  - rewrite union_Some_l. case_decide as Hn; [|done]. subst n0. simpl.
    by rewrite insert_insert_eq.
  - rewrite (left_id None _). rewrite lookup_insert, lookup_empty.
    destruct (decide (n0 = n)) as [->|]; done.
Qed.

(** X4: the constructor.  Preloaded with the entries of an object (whose
    keys are distinct), the backend returns through [get(name)] exactly the
    values of the entries, holds nothing under a version other than "latest",
    and its [size] is the number of entries; without an argument it is
    empty. *)
Theorem new_preloads entries :
  NoDup entries.*1 →
  (∀ n v, get (new (Some entries)) n None = inl v ↔ (n, v) ∈ entries)
  ∧ (∀ n version, version ≠ "latest" → has (new (Some entries)) n (Some version) = false)
  ∧ size (new (Some entries)) = length entries
  ∧ size (new None) = 0%nat.
Proof.
  intros Hnodup.
  assert (NoDup (reverse entries).*1) as Hrev by (by rewrite fmap_reverse, reverse_Permutation).
  assert (∀ n, secrets (new (Some entries)) !! n
               = (λ v, {["latest" := v]}) <$> (list_to_map (reverse entries) : gmap _ _) !! n)
    as Hlookup.
  { intros n. simpl. rewrite preload_lookup. simpl. rewrite lookup_empty.
    by destruct (list_to_map (reverse entries) !! n). }
  split_and!.
  - intros n v. rewrite get_lookup, Hlookup.
    rewrite <- (elem_of_reverse _ entries), (elem_of_list_to_map _ _ _ Hrev).
    destruct (list_to_map (reverse entries) !! n) as [x|]; simpl; [|done].
    rewrite lookup_singleton_eq. split; by intros [= ->].
  - intros n version Hne. unfold has. rewrite Hlookup. simpl.
    destruct (list_to_map (reverse entries) !! n) as [x|]; simpl; [|done].
    apply bool_decide_eq_false. rewrite lookup_singleton_ne by done.
    by intros [? ?].
  - unfold size.
    assert (secrets (new (Some entries))
            = (λ v, {["latest" := v]}) <$> (list_to_map (reverse entries) : gmap _ _)) as ->.
    { apply map_eq. intros n. by rewrite Hlookup, lookup_fmap. }
    by rewrite map_size_fmap, map_size_list_to_map, length_reverse.
  - unfold size. simpl. apply map_size_empty.
Qed.

Lemma new_preloads_witness :
  get (new (Some [("api-key", "secret-value"); ("db-password", "db-secret")])) "db-password" None
  = inl "db-secret"
  ∧ size (new (Some [("api-key", "secret-value"); ("db-password", "db-secret")])) = 2%nat.
Proof.
  assert (NoDup [("api-key", "secret-value"); ("db-password", "db-secret")].*1) as Hnodup
    by (apply (bool_decide_unpack _); vm_compute; exact I).
  destruct (new_preloads _ Hnodup) as (Hget & _ & Hsize & _). split.
  - apply Hget. apply (bool_decide_unpack _). vm_compute. exact I.
  - exact Hsize.
Defined.

(** X5: [size] counts names, not versions: [set] raises it by one exactly
    when the name is new, [delete] without a version lowers it by one
    exactly when the name was stored, and [clear] brings it to zero. *)
Theorem size_counts_names b n v ver :
  size (set b n v ver) = (if secrets b !! n is Some _ then size b else S (size b))
  ∧ size (snd (delete b n None)) = (if secrets b !! n is Some _ then pred (size b) else size b)
  ∧ size (clear b) = 0%nat.
Proof.
  unfold size. split_and!.
  - unfold set; simpl. destruct (secrets b !! n) as [vs|] eqn:Hn.
    + rewrite map_size_insert, Hn. done.
    + rewrite insert_insert_eq, map_size_insert, Hn. done.
  - simpl. rewrite map_size_delete. by destruct (secrets b !! n).
  - apply map_size_empty.
Qed.

End InMemoryTable.

(** ** SecretCache: entries, eviction and keys *)

Section CacheTable.
Import Cache.
Implicit Types (c : SecretCache) (backend name value : string) (version : option string).

(** X6: [set] and [get] concern one key.  A [set] leaves every read under
    another composite key as it was and raises [size] by one exactly when
    its key was not stored; a [get] leaves the entries of all other keys in
    place. *)
Theorem set_get_touch_one_key c backend name value version (setAt now : Z)
    backend' name' version' :
  getCacheKey backend name version ≠ getCacheKey backend' name' version' →
  fst (get (set c backend name value version setAt) backend' name' version' now)
  = fst (get c backend' name' version' now)
  ∧ size (set c backend name value version setAt)
    = (if cache c !! getCacheKey backend name version is Some _ then size c else S (size c))
  ∧ cache (snd (get c backend name version now)) !! getCacheKey backend' name' version'
    = cache c !! getCacheKey backend' name' version'.
Proof.
  intros Hne. split_and!.
  - unfold get, set; simpl. rewrite lookup_insert_ne by done.
    destruct (cache c !! getCacheKey backend' name' version') as [entry|]; [|done].
    by destruct (expired (ttlMs c) now entry).
  - unfold size, set; simpl. rewrite map_size_insert.
    by destruct (cache c !! getCacheKey backend name version).
  - destruct (get_shrinks c backend name version now) as [_ [->|[_ ->]]]; [done|].
    by rewrite lookup_delete_ne.
Qed.

Lemma set_get_touch_one_key_witness :
  fst (get (set (set (new None) "gcp" "api-key" "gcp-value" None 0)
                "memory" "api-key" "memory-value" None 0) "gcp" "api-key" None 0)
  = Some "gcp-value".
Proof.
  pose (c := set (new None) "gcp" "api-key" "gcp-value" None 0).
  assert (getCacheKey "memory" "api-key" None ≠ getCacheKey "gcp" "api-key" None) as Hne
    by (vm_compute; discriminate).
  exact (eq_trans (proj1 (set_get_touch_one_key c "memory" "api-key" "memory-value" None 0 0
                            "gcp" "api-key" None Hne)) eq_refl).
Defined.

(** X7: [delete] reports whether an entry was stored under the key, expired
    or not, and removes it; [clear] removes every entry and keeps the TTL.
    After either, a read of a removed key finds nothing, whatever the clock. *)
Theorem delete_and_clear c backend name version (now : Z) :
  (fst (delete c backend name version) = true
   ↔ is_Some (cache c !! getCacheKey backend name version))
  ∧ fst (get (snd (delete c backend name version)) backend name version now) = None
  ∧ size (snd (delete c backend name version))
    = (if cache c !! getCacheKey backend name version is Some _ then pred (size c) else size c)
  ∧ fst (get (clear c) backend name version now) = None
  ∧ size (clear c) = 0%nat
  ∧ ttlMs (clear c) = ttlMs c.
Proof.
  split_and!.
  - unfold delete; simpl. by rewrite bool_decide_eq_true.
  - rewrite get_absent; [done|]. unfold delete; simpl. apply lookup_delete_eq.
  - unfold size, delete; simpl. rewrite map_size_delete.
    by destruct (cache c !! getCacheKey backend name version).
  - by rewrite get_absent.
  - unfold size, clear; simpl. apply map_size_empty.
  - done.
Qed.

(** X8: lazy eviction.  A read removes an entry exactly when it finds its
    key's entry expired, and then only that entry: [size] drops by one in
    that case and is unchanged otherwise.  A read that returned a value left
    the cache as it was; after a read that returned nothing the key has no
    entry, so later reads return nothing at any clock until the next [set]. *)
Theorem get_evicts_expired c backend name version (now : Z) :
  let evicts :=
    match cache c !! getCacheKey backend name version with
    | Some entry => expired (ttlMs c) now entry
    | None => false
    end in
  size (snd (get c backend name version now)) = (if evicts then pred (size c) else size c)
  ∧ (evicts = false → snd (get c backend name version now) = c)
  ∧ (∀ value, fst (get c backend name version now) = Some value →
              snd (get c backend name version now) = c)
  ∧ (fst (get c backend name version now) = None →
     ∀ later, get (snd (get c backend name version now)) backend name version later
              = (None, snd (get c backend name version now))).
Proof.
  intros evicts. subst evicts. split_and!.
  - unfold get, size. destruct (cache c !! _) as [entry|] eqn:Hentry; [|done].
    destruct (expired (ttlMs c) now entry); simpl; [|done].
    by rewrite map_size_delete, Hentry.
  - unfold get. destruct (cache c !! _) as [entry|]; [|done]. by intros ->.
  - unfold get. destruct (cache c !! _) as [entry|]; [|done].
    by destruct (expired (ttlMs c) now entry).
  - intros Hnone later. apply get_absent. by apply get_None_absent.
Qed.

End CacheTable.

(** ** Composite keys and tokens *)

Section Keys.
Implicit Types (c x : Ascii.ascii) (a r : string).

Lemma append_cons x a r : String x a +:+ r = String x (a +:+ r).
Proof. reflexivity. Qed.

(** Two texts that agree and whose heads are free of the separator split at
    the same place. *)
Lemma append_sep_inj c a a' r r' :
  Text.occurs c a = false → Text.occurs c a' = false →
  a +:+ String c r = a' +:+ String c r' → a = a' ∧ r = r'.
Proof.
  revert a'. induction a as [|x a IH]; intros [|x' a'] Ha Ha' Heq.
  - by injection Heq as ->.
  - rewrite append_cons in Heq. injection Heq as <- _.
    simpl in Ha'. by rewrite decide_True in Ha'.
  - rewrite append_cons in Heq. injection Heq as -> _.
    simpl in Ha. by rewrite decide_True in Ha.
  - rewrite !append_cons in Heq. injection Heq as -> Heq.
    simpl in Ha, Ha'. case_decide; [done|].
    destruct (IH a' Ha Ha' Heq) as [-> ->]. done.
Qed.

(** X9: the cache key separates its parts when backend and secret names
    are free of ":": two requests then share a key only if they name the
    same backend, the same secret and the same version ("latest" standing
    for an omitted one). *)
Theorem getCacheKey_injective backend name version backend' name' version' :
  Text.occurs Text.colon backend = false → Text.occurs Text.colon name = false →
  Text.occurs Text.colon backend' = false → Text.occurs Text.colon name' = false →
  Cache.getCacheKey backend name version = Cache.getCacheKey backend' name' version' →
  backend = backend' ∧ name = name' ∧ default "latest" version = default "latest" version'.
Proof.
  intros Hb Hn Hb' Hn' Heq. unfold Cache.getCacheKey in Heq.
  change (backend +:+ String Text.colon (name +:+ String Text.colon (default "latest" version))
          = backend' +:+ String Text.colon
                       (name' +:+ String Text.colon (default "latest" version'))) in Heq.
  destruct (append_sep_inj _ _ _ _ _ Hb Hb' Heq) as [-> Heq'].
  destruct (append_sep_inj _ _ _ _ _ Hn Hn' Heq') as [-> ->]. done.
Qed.

Lemma getCacheKey_injective_witness :
  "gcp" = "gcp" ∧ "api-key" = "api-key" ∧ default "latest" None = default "latest" (Some "latest").
Proof.
  exact (getCacheKey_injective "gcp" "api-key" None "gcp" "api-key" (Some "latest")
           eq_refl eq_refl eq_refl eq_refl eq_refl).
Defined.

(** X10: the cache key does not separate parts that contain ":".  A value
    stored for secret [name:rest] under version [version] is what a read of
    secret [name] under version [rest:version] returns, as long as the entry
    has not expired. *)
Theorem cache_key_collision (c : Cache.SecretCache) backend name rest version value
    (setAt now : Z) :
  Spec.fresh (Cache.ttlMs c) setAt now →
  fst (Cache.get (Cache.set c backend (name +:+ ":" +:+ rest) value (Some version) setAt)
                 backend name (Some (rest +:+ ":" +:+ version)) now)
  = Some value.
Proof.
  intros Hfresh.
  assert (Cache.getCacheKey backend name (Some (rest +:+ ":" +:+ version))
          = Cache.getCacheKey backend (name +:+ ":" +:+ rest) (Some version)) as Hkey.
  { unfold Cache.getCacheKey. simpl. by rewrite !append_assoc. }
  pose proof (set_lookup_key c backend (name +:+ ":" +:+ rest) value (Some version) setAt)
    as Hentry.
  rewrite <- Hkey in Hentry.
  rewrite (get_entry _ _ _ _ _ _ Hentry), set_ttlMs. by rewrite expired_false_fresh.
Qed.

Lemma cache_key_collision_witness :
  fst (Cache.get (Cache.set (Cache.new None) "memory" "a:b" "value" (Some "1") 0)
                 "memory" "a" (Some "b:1") 0)
  = Some "value".
Proof.
  apply (cache_key_collision (Cache.new None) "memory" "a" "b" "1" "value" 0 0).
  intros ttl Hsome. discriminate Hsome.
Defined.

(** X11: the registry token separates its parts when backend and secret
    names are free of "_": two registrations then get the same token only
    if they agree on backend (an omitted one being "default"), name and
    version (an omitted one being "latest"). *)
Theorem getSecretToken_injective name options name' options' :
  Text.occurs Text.underscore (default "default" (options ≫= Registry.opt_backend)) = false →
  Text.occurs Text.underscore name = false →
  Text.occurs Text.underscore (default "default" (options' ≫= Registry.opt_backend)) = false →
  Text.occurs Text.underscore name' = false →
  Registry.getSecretToken name options = Registry.getSecretToken name' options' →
  Registry.tuple name options = Registry.tuple name' options'.
Proof.
  intros Hb Hn Hb' Hn' Heq. unfold Registry.getSecretToken, Registry.tuple in *.
  set (b := default "default" (options ≫= Registry.opt_backend)) in *.
  set (b' := default "default" (options' ≫= Registry.opt_backend)) in *.
  set (v := default "latest" (options ≫= Registry.opt_version)) in *.
  set (v' := default "latest" (options' ≫= Registry.opt_version)) in *.
  change ("SECRET_" +:+ (b +:+ String Text.underscore (name +:+ String Text.underscore v))
          = "SECRET_" +:+ (b' +:+ String Text.underscore (name' +:+ String Text.underscore v')))
    in Heq.
  rewrite !append_cons in Heq. injection Heq as Heq.
  destruct (append_sep_inj _ _ _ _ _ Hb Hb' Heq) as [-> Heq'].
  destruct (append_sep_inj _ _ _ _ _ Hn Hn' Heq') as [-> ->]. done.
Qed.

Lemma getSecretToken_injective_witness :
  Registry.tuple "api-key" None = Registry.tuple "api-key" (Some (Registry.mkOptions None None)).
Proof.
  exact (getSecretToken_injective "api-key" None "api-key" (Some (Registry.mkOptions None None))
           eq_refl eq_refl eq_refl eq_refl eq_refl).
Defined.

End Keys.

(** ** SecretRegistry: entries and their order *)

Section RegistryTable.
Import Registry.
Context {V : Type}.
Implicit Types (m : JsMap.t V) (k : string).

Lemma JsMap_keys_set m k (v : V) :
  JsMap.keys (JsMap.set m k v)
  = if JsMap.get m k is Some _ then JsMap.keys m else (JsMap.keys m ++ [k])%list.
Proof.
  unfold JsMap.keys. induction m as [|[k0 v0] m IH]; csimpl; [done|].
  case_decide as Hk; csimpl; [by subst k0|]. rewrite IH.
  by destruct (JsMap.get m k).
Qed.

Lemma JsMap_values_set_fresh m k (v : V) :
  JsMap.get m k = None → JsMap.values (JsMap.set m k v) = (JsMap.values m ++ [v])%list.
Proof.
  unfold JsMap.values. induction m as [|[k0 v0] m IH]; csimpl; [done|].
  case_decide; [done|]. intros Hk. csimpl. by rewrite IH.
Qed.

Lemma JsMap_values_get m k (v : V) : JsMap.get m k = Some v → v ∈ JsMap.values m.
Proof.
  unfold JsMap.values. induction m as [|[k0 v0] m IH]; csimpl; [done|].
  case_decide.
  - intros [= ->]. apply list_elem_of_here.
  - intros Hk. by apply list_elem_of_further, IH.
Qed.

Lemma JsMap_set_Forall (P : string * V → Prop) m k (v : V) :
  Forall P m → P (k, v) → Forall P (JsMap.set m k v).
Proof.
  intros Hm Hkv. induction Hm as [|[k0 v0] m H0 Hm IH]; simpl.
  - by constructor.
  - case_decide; constructor; auto.
Qed.

Lemma JsMap_keys_NoDup m k (v : V) :
  NoDup (JsMap.keys m) → NoDup (JsMap.keys (JsMap.set m k v)).
Proof.
  intros Hm. rewrite JsMap_keys_set. destruct (JsMap.get m k) eqn:Hk; [done|].
  apply NoDup_app. split_and!; [done| |apply NoDup_singleton].
  intros k' Hin ->%list_elem_of_singleton.
  apply JsMap_keys_get in Hin. rewrite Hk in Hin. by destruct Hin.
Qed.

End RegistryTable.

Section RegistryInvariant.
Import Registry.

Lemma keyed_register r name options :
  RegistryOps.keyed r → RegistryOps.keyed (snd (register r name options)).
Proof.
  intros [Hall Hnodup]. split; simpl.
  - apply JsMap_set_Forall; [done|]. split; [done|]. simpl.
    unfold getSecretToken. by destruct options.
  - by apply JsMap_keys_NoDup.
Qed.

Lemma keyed_run ops : ∀ r, RegistryOps.keyed r → RegistryOps.keyed (RegistryOps.run r ops).
Proof.
  induction ops as [|op ops IH]; intros r Hr; [done|]. apply IH.
  destruct op; simpl; [by apply keyed_register|]. split; simpl; constructor.
Qed.

Lemma keyed_tokens r :
  RegistryOps.keyed r → token <$> getAll r = JsMap.keys (secrets r).
Proof.
  intros [Hall _]. unfold getAll, JsMap.values, JsMap.keys.
  induction Hall as [|[k req] m [Hk _] _ IH]; csimpl; [done|].
  simpl in Hk. by rewrite IH, Hk.
Qed.

(** X12: whatever sequence of [register] and [clear] calls the registry
    has received since it was created, its requirements carry pairwise
    distinct tokens, each token is the one [getSecretToken] derives from the
    requirement's own name, version and backend, and [size] is the number of
    requirements [getAll] returns. *)
Theorem registry_tokens_distinct ops :
  let registry := RegistryOps.run empty ops in
  NoDup (token <$> getAll registry)
  ∧ (∀ requirement, requirement ∈ getAll registry →
       token requirement
       = getSecretToken (name requirement) (RegistryOps.optionsOf requirement))
  ∧ size registry = length (getAll registry).
Proof.
  intros registry.
  assert (RegistryOps.keyed registry) as Hkeyed
    by (apply keyed_run; split; simpl; constructor).
  split_and!.
  - rewrite keyed_tokens by done. apply Hkeyed.
  - intros requirement Hin. destruct Hkeyed as [Hall _].
    unfold getAll, JsMap.values in Hin.
    apply list_elem_of_fmap in Hin as ([k req] & -> & Hin).
    rewrite Forall_forall in Hall. by destruct (Hall _ Hin).
  - unfold size, getAll, JsMap.size, JsMap.values. by rewrite length_fmap.
Qed.

(** X13: [register] returns the requirement it stores, which [getAll]
    then lists.  A token not yet registered is appended after all earlier
    requirements, so [getAll] lists requirements in the order of their first
    registration; a token registered before keeps its place in that order. *)
Theorem register_keeps_order r name options :
  let requirement := fst (register r name options) in
  let r' := snd (register r name options) in
  requirement = mkRequirement name (options ≫= opt_version) (options ≫= opt_backend)
                              (getSecretToken name options)
  ∧ JsMap.get (secrets r') (token requirement) = Some requirement
  ∧ requirement ∈ getAll r'
  ∧ (JsMap.get (secrets r) (token requirement) = None →
     getAll r' = (getAll r ++ [requirement])%list)
  ∧ (is_Some (JsMap.get (secrets r) (token requirement)) →
     JsMap.keys (secrets r') = JsMap.keys (secrets r)).
Proof.
  intros requirement r'. subst requirement r'. simpl.
  assert (JsMap.get (JsMap.set (secrets r) (getSecretToken name options)
                       (mkRequirement name (options ≫= opt_version)
                          (options ≫= opt_backend) (getSecretToken name options)))
                    (getSecretToken name options)
          = Some (mkRequirement name (options ≫= opt_version) (options ≫= opt_backend)
                    (getSecretToken name options))) as Hget
    by (rewrite JsMap_get_set; by rewrite decide_True).
  split_and!.
  - done.
  - done.
  - unfold getAll; simpl. by apply (JsMap_values_get _ _ _ Hget).
  - intros Hfresh. unfold getAll; simpl. by apply JsMap_values_set_fresh.
  - intros [old Hold]. by rewrite JsMap_keys_set, Hold.
Qed.

End RegistryInvariant.

(** ** GcpSecretManagerBackend: what a client outcome becomes *)

Section GcpOutcomes.
Import Gcp.
Implicit Types (b : GcpSecretManagerBackend) (name : string) (version : option string).

(** Text of bytes below 128 decodes to itself. *)
Lemma toStringUtf8_ascii bytes : Text.all_ascii bytes = true → toStringUtf8 bytes = bytes.
Proof.
  induction bytes as [|x bytes IH]; simpl; [done|].
  intros [Hx Hrest]%andb_true_iff. rewrite Hx. by rewrite IH.
Qed.

(** X14: the GCP backend asks the client for
    [projects/<projectId>/secrets/<name>/versions/<version or "latest">].
    It returns a value exactly for a non-empty text payload, which it returns
    as it is, or a byte payload, which it returns decoded as UTF-8 (an empty
    byte payload gives the empty string, bytes below 128 give themselves, an
    ill-formed byte such as 255 gives U+FFFD); it throws
    [SecretNotFoundError] exactly for gRPC code 5, a response without data or
    an empty text payload; [SecretAccessDeniedError], carrying the client's
    message, exactly for code 7; and the client's own error, unchanged,
    exactly for any other rejection. *)
Theorem gcp_get_outcome b name version :
  let outcome :=
    client b ("projects/" +:+ projectId b +:+ "/secrets/" +:+ name +:+ "/versions/"
                +:+ default "latest" version) in
  (∀ value, get b name version = inl value ↔
            (outcome = Responded (Some (PayloadString value)) ∧ value ≠ "")
            ∨ ∃ bytes, outcome = Responded (Some (PayloadBytes bytes))
                       ∧ value = toStringUtf8 bytes)
  ∧ (get b name version = inr (SecretNotFoundError name "gcp" version) ↔
     (∃ m, outcome = Rejected (Some 5%Z) m)
     ∨ outcome = Responded None
     ∨ outcome = Responded (Some (PayloadString "")))
  ∧ (∀ m, get b name version = inr (SecretAccessDeniedError name "gcp" m) ↔
          outcome = Rejected (Some 7%Z) m)
  ∧ (∀ code m, get b name version = inr (GrpcError code m) ↔
               outcome = Rejected code m ∧ code ≠ Some 5%Z ∧ code ≠ Some 7%Z)
  ∧ (∀ msg, get b name version ≠ inr (Error msg))
  ∧ toStringUtf8 "" = ""
  ∧ (∀ bytes, Text.all_ascii bytes = true → toStringUtf8 bytes = bytes)
  ∧ toStringUtf8 (String (Ascii.ascii_of_N 255) "") = replacement.
Proof.
  intros outcome. unfold get, secretPath. fold outcome.
  destruct outcome as [[[[|x s]|bytes]|]|code m];
    [| | | |case_bool_decide as H5; [|case_bool_decide as H7]];
    (split_and!;
     [intros value| |intros m'|intros code' m'|intros msg
      |done|apply toStringUtf8_ascii|done]);
    try split; settle.
Qed.

End GcpOutcomes.

(** ** Omitted versions at the backends *)

Section OmittedVersion.

Lemma append_inj_l (a x y : string) : a +:+ x = a +:+ y → x = y.
Proof.
  induction a as [|c a IH]; [done|]. rewrite !append_cons. intros [= H]. by apply IH.
Qed.

(** X15: at both backends of the package, asking for "latest" and
    omitting the version look up the same thing: both return the same value,
    or both throw, the same error except that a [SecretNotFoundError] records
    the version as the caller gave it: none when omitted, "latest" when
    given.  Its message ends in " (version: latest)" in the second case and
    has no such suffix in the first, so the two messages differ. *)
Theorem latest_is_omitted_version :
  (∀ (b : InMemory.InMemorySecretBackend) name,
      (∃ value, InMemory.get b name None = inl value
                ∧ InMemory.get b name (Some "latest") = inl value)
      ∨ (InMemory.get b name None = inr (SecretNotFoundError name "memory" None)
         ∧ InMemory.get b name (Some "latest")
           = inr (SecretNotFoundError name "memory" (Some "latest"))))
  ∧ (∀ (b : Gcp.GcpSecretManagerBackend) name,
        (∃ value, Gcp.get b name None = inl value
                  ∧ Gcp.get b name (Some "latest") = inl value)
        ∨ (Gcp.get b name None = inr (SecretNotFoundError name "gcp" None)
           ∧ Gcp.get b name (Some "latest")
             = inr (SecretNotFoundError name "gcp" (Some "latest")))
        ∨ (∃ m, Gcp.get b name None = inr (SecretAccessDeniedError name "gcp" m)
                ∧ Gcp.get b name (Some "latest") = inr (SecretAccessDeniedError name "gcp" m))
        ∨ (∃ code m, Gcp.get b name None = inr (GrpcError code m)
                     ∧ Gcp.get b name (Some "latest") = inr (GrpcError code m)))
  ∧ (∀ name backend,
        message (SecretNotFoundError name backend None)
        = "Secret '" +:+ name +:+ "' not found in backend '" +:+ backend +:+ "'"
        ∧ message (SecretNotFoundError name backend (Some "latest"))
          = "Secret '" +:+ name +:+ "' not found in backend '" +:+ backend +:+ "'"
              +:+ " (version: latest)"
        ∧ message (SecretNotFoundError name backend None)
          ≠ message (SecretNotFoundError name backend (Some "latest"))).
Proof.
  split_and!.
  - intros b name. rewrite !get_lookup. simpl.
    destruct (InMemory.secrets b !! name ≫= _) as [value|]; [left|right]; eauto.
  - intros b name. unfold Gcp.get. simpl.
    destruct (Gcp.client b _) as [[[[|x s]|bytes]|]|code m]; eauto 6.
    repeat case_bool_decide; eauto 8.
  - intros name backend. split_and!.
    + unfold message. simpl. by rewrite append_empty_r.
    + done.
    + unfold message. simpl. intros H.
      do 4 apply append_inj_l in H. discriminate H.
Qed.

End OmittedVersion.

(** ** SecretManagerService: construction, registration and the effect of get *)

Section ServiceTable.
Import Service.
Implicit Types (s : SecretManagerService) (name : string) (version backendName : option string).

(** X16: the constructor.  The in-memory backend, preloaded with
    [inMemorySecrets], is always registered under "memory"; the GCP backend
    is registered under "gcp", ahead of it, exactly when [gcpProjectId] is a
    non-empty string, and otherwise "gcp" names no backend.  The cache starts
    empty, with [cacheTTL] as its TTL unless caching is disabled, and then
    with none. *)
Theorem new_registers_backends options gcpClient :
  let s := new options gcpClient in
  getBackend s (Some "memory") = inl (MemoryBackend (InMemory.new (inMemorySecrets options)))
  ∧ match gcpProjectId options with
    | None | Some "" =>
        JsMap.keys (backends s) = ["memory"]
        ∧ getBackend s (Some "gcp")
          = inr (Error "Unknown secret backend: 'gcp'. Available backends: memory")
    | Some projectId =>
        JsMap.keys (backends s) = ["gcp"; "memory"]
        ∧ getBackend s (Some "gcp") = inl (GcpBackend (Gcp.mk projectId gcpClient))
    end
  ∧ Cache.size (cache s) = 0%nat
  ∧ Cache.ttlMs (cache s)
    = (if decide (cacheEnabled options = Some false) then None else cacheTTL options).
Proof.
  intros s. subst s. unfold new, initializeBackends, getBackend. simpl.
  split_and!.
  - by destruct (gcpProjectId options) as [[|x p]|].
  - by destruct (gcpProjectId options) as [[|x p]|].
  - unfold Cache.size, Cache.new; simpl. apply map_size_empty.
  - by destruct (cacheEnabled options) as [[]|].
Qed.

(** X17: [registerBackend] files the backend under its own name: that name
    resolves to it from then on, replacing a backend registered under the
    name before (the table keeps its length) or joining the table as its
    last entry; every other name resolves as before, and the options and the
    cache, entries of a replaced backend included, stay as they are. *)
Theorem registerBackend_last_wins s (backend : Backend) :
  let s' := registerBackend s backend in
  getBackend s' (Some (SecretBackend.name backend)) = inl backend
  ∧ (∀ other, other ≠ SecretBackend.name backend →
              JsMap.get (backends s') other = JsMap.get (backends s) other)
  ∧ JsMap.keys (backends s')
    = (if JsMap.get (backends s) (SecretBackend.name backend) is Some _
       then JsMap.keys (backends s)
       else (JsMap.keys (backends s) ++ [SecretBackend.name backend])%list)
  ∧ options s' = options s
  ∧ cache s' = cache s.
Proof.
  intros s'. subst s'. unfold registerBackend, getBackend. simpl. split_and!.
  - rewrite JsMap_get_set. by rewrite decide_True.
  - intros other Hne. rewrite JsMap_get_set. by rewrite decide_False.
  - apply JsMap_keys_set.
  - done.
  - done.
Qed.

(** X18: a value cached under a backend's name outlives the backend: after
    [registerBackend] has put another backend under that name, a [get] for
    a key with a live entry returns the cached value and does not consult
    the new backend. *)
Theorem cache_survives_registerBackend s (backend : Backend) name version entry (now now' : Z) :
  not_false (cacheEnabled (options s)) = true →
  Cache.cache (cache s)
    !! Cache.getCacheKey (SecretBackend.name backend) name (Some (default "latest" version))
  = Some entry →
  Cache.expired (Cache.ttlMs (cache s)) now entry = false →
  get (registerBackend s backend) name version (Some (SecretBackend.name backend)) now now'
  = (inl (Cache.value entry), registerBackend s backend).
Proof.
  intros Hen Hentry Hlive.
  assert (getBackend (registerBackend s backend) (Some (SecretBackend.name backend))
          = inl backend) as Hb.
  { unfold registerBackend, getBackend. simpl. rewrite JsMap_get_set.
    by rewrite decide_True. }
  rewrite (get_known _ _ _ _ _ _ _ Hb). apply getInternal_hit; [done|]. simpl.
  by rewrite (get_entry _ _ _ _ _ _ Hentry), Hlive.
Qed.

Lemma cache_survives_registerBackend_witness :
  let replacement :=
    OtherBackend (mkCustom "memory" (λ _ _, inl "replacement-value")
                           (λ _, inl "replacement-value")) in
  fst (get (registerBackend (Scenario.afterFirstGet None None) replacement)
           "api-key" None (Some "memory") 1 1)
  = inl "test-api-key-value".
Proof.
  intros replacement.
  exact (f_equal fst
           (cache_survives_registerBackend (Scenario.afterFirstGet None None) replacement
              "api-key" None (Cache.mkEntry "test-api-key-value" 0) 1 1
              eq_refl eq_refl eq_refl)).
Defined.

(** X19: what a [get] can change.  It never changes the options, the
    backend table or the cache's TTL, and in the cache it leaves the entry of
    every key but the requested one as it was; with caching disabled or the
    backend unknown it changes nothing at all. *)
Theorem get_changes_one_entry s name version backendName (now now' : Z) :
  let s' := snd (get s name version backendName now now') in
  options s' = options s
  ∧ backends s' = backends s
  ∧ Cache.ttlMs (cache s') = Cache.ttlMs (cache s)
  ∧ (∀ b k, getBackend s backendName = inl b →
            k ≠ Cache.getCacheKey (SecretBackend.name b) name (Some (default "latest" version)) →
            Cache.cache (cache s') !! k = Cache.cache (cache s) !! k)
  ∧ (cacheEnabled (options s) = Some false → s' = s)
  ∧ (∀ e, getBackend s backendName = inr e → s' = s).
Proof.
  intros s'. subst s'. destruct (getBackend s backendName) as [b|e] eqn:Hb.
  2:{ rewrite (get_unknown _ _ _ _ _ _ _ Hb). simpl. by split_and!. }
  rewrite (get_known _ _ _ _ _ _ _ Hb).
  set (ver := default "latest" version).
  destruct (not_false (cacheEnabled (options s))) eqn:Hen.
  - assert (cacheEnabled (options s) ≠ Some false) as Hon
      by (intros Hoff; by rewrite Hoff in Hen).
    unfold getInternal. rewrite Hen.
    pose proof (get_shrinks (cache s) (SecretBackend.name b) name (Some ver) now) as Hshr.
    destruct (Cache.get (cache s) (SecretBackend.name b) name (Some ver) now)
      as [cached c1] eqn:Hget. simpl in Hshr. destruct Hshr as [Httl Hc1].
    assert (∀ k, k ≠ Cache.getCacheKey (SecretBackend.name b) name (Some ver) →
                 Cache.cache c1 !! k = Cache.cache (cache s) !! k) as Hframe.
    { intros k Hk. destruct Hc1 as [->|[_ ->]]; [done|]. by rewrite lookup_delete_ne. }
    destruct cached as [value|]; [|destruct (SecretBackend.get b name (Some ver))]; simpl;
      (split_and!; [done|done|done| |done|done]);
      intros b0 k [= <-] Hk; simpl; rewrite ?lookup_insert_ne by done; by apply Hframe.
  - assert (cacheEnabled (options s) = Some false) as Hoff
      by (by destruct (cacheEnabled (options s)) as [[]|]).
    rewrite (getInternal_disabled _ _ _ _ _ _ Hoff). simpl. by split_and!.
Qed.

End ServiceTable.

(** ** Startup validation fills the cache *)

Section ValidationWarmsCache.
Import Service.
Implicit Types (s : SecretManagerService) (clock : nat → Z * Z).

Lemma validateAllSecrets_attempts s (registry : Registry.SecretRegistry) clock :
  validateAllSecrets s registry clock
  = (match Spec.failures (fst (Spec.attempts s (Registry.getAll registry) clock 0)) with
     | [] => inl ()
     | errors => inr (Error (aggregateMessage errors))
     end,
     snd (Spec.attempts s (Registry.getAll registry) clock 0)).
Proof.
  unfold validateAllSecrets. case_bool_decide as Hlen.
  - by destruct (Registry.getAll registry).
  - rewrite validateLoop_attempts. simpl.
    by destruct (Spec.failures _).
Qed.

(** Without a TTL and with caching enabled, a successful [get] leaves its
    value under its key, changes no other entry and overwrites none; when the
    key had no entry the value is the backend's answer. *)
Lemma get_success_entry s name version backendName (now now' : Z) value s1 :
  not_false (cacheEnabled (options s)) = true →
  Cache.ttlMs (cache s) = None →
  get s name version backendName now now' = (inl value, s1) →
  options s1 = options s
  ∧ backends s1 = backends s
  ∧ Cache.ttlMs (cache s1) = None
  ∧ (∀ k e, Cache.cache (cache s) !! k = Some e → Cache.cache (cache s1) !! k = Some e)
  ∧ ∃ b, getBackend s backendName = inl b
         ∧ (∃ cachedAt,
               Cache.cache (cache s1)
                 !! Cache.getCacheKey (SecretBackend.name b) name
                      (Some (default "latest" version))
               = Some (Cache.mkEntry value cachedAt))
         ∧ (∀ k, k ≠ Cache.getCacheKey (SecretBackend.name b) name
                       (Some (default "latest" version)) →
                 Cache.cache (cache s1) !! k = Cache.cache (cache s) !! k)
         ∧ (Cache.cache (cache s)
              !! Cache.getCacheKey (SecretBackend.name b) name (Some (default "latest" version))
            = None →
            SecretBackend.get b name (Some (default "latest" version)) = inl value).
Proof.
  intros Hen Httl Hget. destruct (getBackend s backendName) as [b|e] eqn:Hb.
  2:{ by rewrite (get_unknown _ _ _ _ _ _ _ Hb) in Hget. }
  rewrite (get_known _ _ _ _ _ _ _ Hb) in Hget.
  set (ver := default "latest" version) in *.
  unfold getInternal in Hget. rewrite Hen in Hget. unfold Cache.get in Hget.
  rewrite Httl in Hget. simpl in Hget.
  destruct (Cache.cache (cache s) !! _) as [[v cachedAt]|] eqn:Hentry; simpl in Hget.
  - injection Hget as <- <-. simpl. split_and!; try done.
    exists b. split_and!; try done; [by exists cachedAt|].
    intros Hnone. by rewrite Hnone in Hentry.
  - destruct (SecretBackend.get b name (Some ver)) as [v|e] eqn:Hbk; [|done].
    injection Hget as <- <-. simpl. split_and!; try done.
    + intros k e Hk. rewrite lookup_insert_ne; [done|]. intros <-. by rewrite Hentry in Hk.
    + exists b. split_and!; try done.
      * exists now'. apply lookup_insert_eq.
      * intros k Hk. by rewrite lookup_insert_ne.
Qed.

Lemma cacheKeyOf_same s s1 requirement :
  options s1 = options s → backends s1 = backends s →
  Lookup.cacheKeyOf s1 requirement = Lookup.cacheKeyOf s requirement.
Proof. intros Ho Hb. unfold Lookup.cacheKeyOf, getBackend. by rewrite Ho, Hb. Qed.

(** The validation pass, attempt by attempt. *)
Lemma attempts_fill clock requirements :
  ∀ s i0,
    not_false (cacheEnabled (options s)) = true →
    Cache.ttlMs (cache s) = None →
    Spec.failures (fst (Spec.attempts s requirements clock i0)) = [] →
    let s' := snd (Spec.attempts s requirements clock i0) in
    options s' = options s
    ∧ backends s' = backends s
    ∧ Cache.ttlMs (cache s') = None
    ∧ (∀ k e, Cache.cache (cache s) !! k = Some e → Cache.cache (cache s') !! k = Some e)
    ∧ ∀ i requirement, requirements !! i = Some requirement →
        ∃ key value cachedAt b,
          Lookup.cacheKeyOf s requirement = Some key
          ∧ getBackend s (Registry.backend requirement) = inl b
          ∧ fst (Spec.attempts s requirements clock i0) !! i = Some (inl value)
          ∧ Cache.cache (cache s') !! key = Some (Cache.mkEntry value cachedAt)
          ∧ (Cache.cache (cache s) !! key = None →
             (∀ j earlier, (j < i)%nat → requirements !! j = Some earlier →
                           Lookup.cacheKeyOf s earlier ≠ Some key) →
             SecretBackend.get b (Registry.name requirement)
                               (Some (default "latest" (Registry.version requirement)))
             = inl value).
Proof.
  induction requirements as [|r rest IH]; intros s i0 Hen Httl Hok; simpl in *.
  - by split_and!.
  - destruct (get s _ _ _ _ _) as [[value|e] s1] eqn:Hget;
      destruct (Spec.attempts s1 rest clock (S i0)) as [outs s2] eqn:Hrest; simpl in *;
      [|done].
    destruct (get_success_entry _ _ _ _ _ _ _ _ Hen Httl Hget)
      as (Hopts & Hbks & Httl1 & Hmono & b & Hb & [cachedAt Hkey] & Hframe & Hfetched).
    specialize (IH s1 (S i0)). rewrite Hrest in IH. simpl in IH.
    destruct IH as (Hopts2 & Hbks2 & Httl2 & Hmono2 & Hall); [by rewrite Hopts|done|done|].
    split_and!.
    + by rewrite Hopts2.
    + by rewrite Hbks2.
    + done.
    + auto.
    + intros [|i] requirement Hi; simpl in Hi.
      * injection Hi as <-.
        eexists _, value, cachedAt, b. split_and!.
        -- unfold Lookup.cacheKeyOf. by rewrite Hb.
        -- done.
        -- done.
        -- by apply Hmono2.
        -- intros Hnone _. by apply Hfetched.
      * destruct (Hall _ _ Hi) as (key & v & at' & b' & Hk' & Hb' & Hout & Hentry & Hfetched').
        rewrite (cacheKeyOf_same _ _ _ Hopts Hbks) in Hk'.
        exists key, v, at', b'. split_and!; try done.
        -- unfold getBackend in *. by rewrite <- Hopts, <- Hbks.
        -- intros Hnone Hearlier. apply Hfetched'.
           ++ rewrite Hframe; [done|]. intros ->.
              apply (Hearlier 0%nat r); [lia|done|].
              unfold Lookup.cacheKeyOf. by rewrite Hb.
           ++ intros j earlier Hj Hlook. rewrite (cacheKeyOf_same _ _ _ Hopts Hbks).
              apply (Hearlier (S j) earlier); [lia|done].
Qed.

(** X20: with caching enabled and no TTL, a validation pass that succeeds
    leaves, under every registered requirement's cache key, the value its
    attempt returned: afterwards a [get] with the requirement's name, version
    and backend returns that value, whatever the clock, and changes nothing.
    When the cache held nothing under the key before the pass and no
    requirement listed earlier has the same key, that value is the answer of
    the requirement's backend. *)
Theorem validation_fills_cache s (registry : Registry.SecretRegistry) clock s' :
  not_false (cacheEnabled (options s)) = true →
  Cache.ttlMs (cache s) = None →
  validateAllSecrets s registry clock = (inl (), s') →
  ∀ i requirement, Registry.getAll registry !! i = Some requirement →
    ∃ key value cachedAt b,
      Lookup.cacheKeyOf s' requirement = Some key
      ∧ getBackend s' (Registry.backend requirement) = inl b
      ∧ fst (Spec.attempts s (Registry.getAll registry) clock 0) !! i = Some (inl value)
      ∧ Cache.cache (cache s') !! key = Some (Cache.mkEntry value cachedAt)
      ∧ (∀ now now',
            get s' (Registry.name requirement) (Registry.version requirement)
                (Registry.backend requirement) now now'
            = (inl value, s'))
      ∧ (Cache.cache (cache s) !! key = None →
         (∀ j earlier, (j < i)%nat → Registry.getAll registry !! j = Some earlier →
                       Lookup.cacheKeyOf s' earlier ≠ Some key) →
         SecretBackend.get b (Registry.name requirement)
                           (Some (default "latest" (Registry.version requirement)))
         = inl value).
Proof.
  intros Hen Httl Hvalid i requirement Hi.
  rewrite validateAllSecrets_attempts in Hvalid.
  destruct (Spec.failures _) eqn:Hok; [|done]. injection Hvalid as Hs'.
  destruct (attempts_fill clock (Registry.getAll registry) s 0 Hen Httl Hok)
    as (Hopts & Hbks & Httl' & _ & Hall).
  rewrite Hs' in Hopts, Hbks, Httl', Hall.
  destruct (Hall _ _ Hi) as (key & value & cachedAt & b & Hkey & Hb & Hout & Hentry & Hfetched).
  assert (getBackend s' (Registry.backend requirement) = inl b) as Hb'
    by (unfold getBackend in *; by rewrite Hopts, Hbks).
  exists key, value, cachedAt, b. split_and!; try done.
  - by rewrite (cacheKeyOf_same _ _ _ Hopts Hbks).
  - intros now now'. rewrite (get_known _ _ _ _ _ _ _ Hb').
    apply getInternal_hit; [by rewrite Hopts|].
    unfold Lookup.cacheKeyOf in Hkey. rewrite Hb in Hkey. injection Hkey as <-.
    by rewrite (get_entry _ _ _ _ _ _ Hentry), Httl'.
  - intros Hnone Hearlier. apply Hfetched; [done|].
    intros j earlier Hj Hlook. rewrite <- (cacheKeyOf_same _ _ _ Hopts Hbks).
    by apply (Hearlier j).
Qed.

Lemma validation_fills_cache_witness :
  let registry := snd (Registry.register Registry.empty "api-key" None) in
  let s := Scenario.service None None in
  let s' := snd (validateAllSecrets s registry (λ _, (0, 0)%Z)) in
  get s' "api-key" None None 1000000 1000000 = (inl "test-api-key-value", s').
Proof.
  intros registry s s'.
  destruct (validation_fills_cache s registry (λ _, (0, 0)%Z) s' eq_refl eq_refl eq_refl 0%nat
              (Registry.mkRequirement "api-key" None None "SECRET_default_api-key_latest")
              eq_refl)
    as (key & value & cachedAt & b & _ & _ & Hout & _ & Hget & _).
  injection Hout as <-. exact (Hget 1000000%Z 1000000%Z).
Defined.

End ValidationWarmsCache.

(** ** SecretManagerModule: the providers it declares *)

Section ModuleProviders.
Import NestModule.
Context {ClassRef Factory InjectToken ModuleRef : Type}.
Implicit Types
  (options : @SecretManagerModuleAsyncOptions ClassRef Factory InjectToken ModuleRef)
  (registry : Registry.SecretRegistry).

(** X21: [createAsyncProviders] fails exactly when none of [useExisting],
    [useClass] and [useFactory] is given, with the message that names all
    three; the error of [createAsyncOptionsProvider] never comes out of it.
    Otherwise [useFactory] takes precedence over [useExisting], and that
    over [useClass]; only a lone [useClass] adds a provider for the class
    itself. *)
Theorem createAsyncProviders_outcome options :
  (createAsyncProviders options
   = inr (Error "Invalid SecretManagerModuleAsyncOptions: must provide useExisting, useClass, or useFactory")
   ↔ useExisting options = None ∧ useClass options = None ∧ useFactory options = None)
  ∧ (∀ e, createAsyncProviders options = inr e →
          e = Error "Invalid SecretManagerModuleAsyncOptions: must provide useExisting, useClass, or useFactory")
  ∧ createAsyncProviders options =
      match useFactory options, useExisting options, useClass options with
      | Some factory, _, _ => inl [OptionsFactory factory (default [] (inject options))]
      | None, Some existing, _ => inl [OptionsFromFactoryClass existing]
      | None, None, Some cls => inl [OptionsFromFactoryClass cls; ClassProvider cls]
      | None, None, None =>
          inr (Error "Invalid SecretManagerModuleAsyncOptions: must provide useExisting, useClass, or useFactory")
      end.
Proof.
  assert (createAsyncProviders options =
            match useFactory options, useExisting options, useClass options with
            | Some factory, _, _ => inl [OptionsFactory factory (default [] (inject options))]
            | None, Some existing, _ => inl [OptionsFromFactoryClass existing]
            | None, None, Some cls => inl [OptionsFromFactoryClass cls; ClassProvider cls]
            | None, None, None =>
                inr (Error "Invalid SecretManagerModuleAsyncOptions: must provide useExisting, useClass, or useFactory")
            end) as Hcases.
  { unfold createAsyncProviders, createAsyncOptionsProvider.
    by destruct (useFactory options) as [f|], (useExisting options) as [c|],
      (useClass options) as [c'|]. }
  split_and!; [|intros e|done]; rewrite Hcases;
    destruct (useFactory options), (useExisting options), (useClass options);
    try split; settle.
Qed.

Lemma providedSecret_secretProviders registry :
  omap providedSecret (@createSecretProviders ClassRef Factory InjectToken registry)
  = Registry.token <$> Registry.getAll registry.
Proof.
  unfold createSecretProviders.
  induction (Registry.getAll registry) as [|secret l IH]; csimpl; [done|]. by rewrite IH.
Qed.

Lemma JsMap_elem_get {V : Type} (m : JsMap.t V) k (v : V) :
  NoDup (JsMap.keys m) → (k, v) ∈ m ↔ JsMap.get m k = Some v.
Proof.
  unfold JsMap.keys. induction m as [|[k0 v0] m IH]; csimpl.
  - intros _. split; [by intros ?%elem_of_nil|done].
  - intros [Hk0 Hm]%NoDup_cons. rewrite elem_of_cons, (IH Hm). case_decide as Hk.
    + subst k0. split.
      * intros [[= ->]|Hget]; [done|]. exfalso. apply Hk0.
        apply (JsMap_keys_get m k). by rewrite Hget.
      * intros [= ->]. by left.
    + split; [|by right]. intros [[= -> ->]|Hget]; done.
Qed.

(** In a registry that [register] and [clear] calls have built, the
    requirements [getAll] lists are those stored under their own token. *)
Lemma keyed_getAll r secret :
  RegistryOps.keyed r →
  secret ∈ Registry.getAll r ↔ JsMap.get (Registry.secrets r) (Registry.token secret) = Some secret.
Proof.
  intros [Hall Hnodup]. rewrite <- (JsMap_elem_get _ _ _ Hnodup).
  unfold Registry.getAll, JsMap.values. rewrite list_elem_of_fmap. split.
  - intros ([k v] & -> & Hin). rewrite Forall_forall in Hall.
    destruct (Hall _ Hin) as [Hk _]. simpl in *. by rewrite <- Hk.
  - intros Hin. by exists (Registry.token secret, secret).
Qed.

Lemma forRoot_secret_providers (moduleOptions : Service.SecretManagerModuleOptions)
    registry secret :
  SecretProvider secret
    ∈ providers (@forRoot ClassRef Factory InjectToken ModuleRef moduleOptions registry)
  ↔ secret ∈ Registry.getAll registry.
Proof.
  unfold forRoot, createSecretProviders; simpl. rewrite !elem_of_cons, list_elem_of_fmap.
  split.
  - intros [[=]|[[=]|(secret' & [= ->] & Hin)]]. done.
  - intros Hin. right. right. by exists secret.
Qed.

(** X22: [forRoot] declares one secret provider per requirement
    registered at the moment it is called, in registration order, besides
    the options and the service, and exports the same secret providers.  The
    provider under a token is built from the requirement the registry holds
    under that token then, and its factory is the service's [get] with that
    requirement's name, version and backend.  For a secret declared through
    [InjectSecret] and no later registration under the same token, that is
    the declaration's name, version and backend; after a later registration
    whose token is the same, the only provider under the token is built from
    the later registration.  A token not registered then has no provider. *)
Theorem forRoot_provides_registered (moduleOptions : Service.SecretManagerModuleOptions)
    ops name (secretOptions : option Registry.InjectSecretOptions) :
  let registry := RegistryOps.run Registry.empty ops in
  let module := @forRoot ClassRef Factory InjectToken ModuleRef moduleOptions registry in
  let declared := InjectSecret name secretOptions registry in
  omap providedSecret (providers module) = Registry.token <$> Registry.getAll registry
  ∧ length (providers module) = (2 + Registry.size registry)%nat
  ∧ (∀ secret, SecretProvider secret ∈ providers module
               ↔ JsMap.get (Registry.secrets registry) (Registry.token secret) = Some secret)
  ∧ (∀ secret, SecretProvider secret ∈ exports module ↔ SecretProvider secret ∈ providers module)
  ∧ (∀ secret service now now',
        secretFactory secret service now now'
        = Service.get service (Registry.name secret) (Registry.version secret)
                      (Registry.backend secret) now now')
  ∧ fst declared = Registry.getSecretToken name secretOptions
  ∧ (∀ secret,
        (SecretProvider secret
           ∈ providers (@forRoot ClassRef Factory InjectToken ModuleRef moduleOptions
                                 (snd declared))
         ∧ Registry.token secret = fst declared)
        ↔ secret = Registry.mkRequirement name (secretOptions ≫= Registry.opt_version)
                                          (secretOptions ≫= Registry.opt_backend)
                                          (fst declared))
  ∧ (∀ laterName laterOptions,
        Registry.getSecretToken laterName laterOptions = fst declared →
        ∀ secret,
          (SecretProvider secret
             ∈ providers (@forRoot ClassRef Factory InjectToken ModuleRef moduleOptions
                                   (snd (Registry.register (snd declared) laterName laterOptions)))
           ∧ Registry.token secret = fst declared)
          ↔ secret = Registry.mkRequirement laterName (laterOptions ≫= Registry.opt_version)
                                            (laterOptions ≫= Registry.opt_backend)
                                            (fst declared))
  ∧ (∀ token, JsMap.get (Registry.secrets registry) token = None →
              ∀ secret, SecretProvider secret ∈ providers module →
                        Registry.token secret ≠ token).
Proof.
  intros registry module declared. subst module declared.
  assert (RegistryOps.keyed registry) as Hkeyed
    by (apply keyed_run; split; simpl; constructor).
  assert (∀ r n o secret,
            RegistryOps.keyed r →
            (SecretProvider secret
               ∈ providers (@forRoot ClassRef Factory InjectToken ModuleRef moduleOptions
                                     (snd (Registry.register r n o)))
             ∧ Registry.token secret = Registry.getSecretToken n o)
            ↔ secret = Registry.mkRequirement n (o ≫= Registry.opt_version)
                                              (o ≫= Registry.opt_backend)
                                              (Registry.getSecretToken n o)) as Hlast.
  { intros r n o secret Hr.
    rewrite forRoot_secret_providers, (keyed_getAll _ _ (keyed_register _ n o Hr)).
    simpl. split.
    - intros [Hget Htoken]. rewrite Htoken, JsMap_get_set, decide_True in Hget by done.
      by injection Hget as <-.
    - intros ->. simpl. by rewrite JsMap_get_set, decide_True. }
  split_and!.
  - unfold forRoot; simpl. apply providedSecret_secretProviders.
  - unfold forRoot, createSecretProviders, Registry.size, Registry.getAll, JsMap.size,
      JsMap.values; simpl. by rewrite !length_fmap.
  - intros secret. by rewrite forRoot_secret_providers, keyed_getAll.
  - intros secret. unfold forRoot; simpl. rewrite !elem_of_cons. split.
    + intros [[=]|Hin]. auto.
    + intros [[=]|[[=]|Hin]]. auto.
  - done.
  - done.
  - intros secret.
    change (fst (InjectSecret name secretOptions registry))
      with (Registry.getSecretToken name secretOptions).
    change (snd (InjectSecret name secretOptions registry))
      with (snd (Registry.register registry name secretOptions)).
    by apply Hlast.
  - intros laterName laterOptions.
    change (fst (InjectSecret name secretOptions registry))
      with (Registry.getSecretToken name secretOptions).
    change (snd (InjectSecret name secretOptions registry))
      with (snd (Registry.register registry name secretOptions)).
    intros Htoken secret. rewrite <- Htoken. apply Hlast. by apply keyed_register.
  - intros token Hnone secret Hin <-.
    rewrite forRoot_secret_providers, keyed_getAll in Hin by done.
    by rewrite Hnone in Hin.
Qed.

(** X23: when the registry has only received [register] and [clear]
    calls since it was created, the secret providers [forRoot] declares carry
    pairwise distinct tokens: no token is provided twice. *)
Theorem forRoot_tokens_distinct (moduleOptions : Service.SecretManagerModuleOptions) ops :
  NoDup (omap providedSecret
           (providers (@forRoot ClassRef Factory InjectToken ModuleRef moduleOptions
                                (RegistryOps.run Registry.empty ops)))).
Proof.
  assert (RegistryOps.keyed (RegistryOps.run Registry.empty ops)) as Hkeyed
    by (apply keyed_run; split; simpl; constructor).
  unfold forRoot; simpl. rewrite providedSecret_secretProviders, keyed_tokens by done.
  apply Hkeyed.
Qed.

(** X24: [forTesting] empties the registry before it builds the module,
    so the module declares no secret provider, whatever was registered
    before the call.  Its options name "memory" as the default backend and
    switch caching and startup validation off: the service built from them
    answers every [get] that names no backend with the in-memory backend's
    present answer and keeps no state of it, and its [onModuleInit] does
    nothing, whatever the registry holds by then. *)
Theorem forTesting_declares_no_secret secrets registry gcpClient :
  let testingOptions :=
    Service.mkOptions "memory" (Some false) None (Some false) None
                      (Some (default [] secrets)) None in
  let result := @forTesting ClassRef Factory InjectToken ModuleRef secrets registry in
  let service := Service.new testingOptions gcpClient in
  providers (fst result) = [OptionsValue testingOptions; ServiceProvider]
  ∧ exports (fst result) = [ServiceProvider]
  ∧ Registry.getAll (snd result) = []
  ∧ (∀ name version now now',
        Service.get service name version None now now'
        = (InMemory.get (InMemory.new (Some (default [] secrets))) name
                        (Some (default "latest" version)),
           service))
  ∧ (∀ later clock, Service.onModuleInit service later clock = (inl (), service)).
Proof.
  intros testingOptions result service. subst result. split_and!; try done.
  intros name version now now'.
  assert (Service.getBackend service None
          = inl (MemoryBackend (InMemory.new (Some (default [] secrets))))) as Hb by done.
  rewrite (get_known _ _ _ _ _ _ _ Hb). by rewrite getInternal_disabled.
Qed.

End ModuleProviders.
